(** * secure_csv_writer: a shallow embedding and its properties

    The development follows [secure_csv_writer.py]:
    - [sanitize_cell], the cell sanitizer;
    - [validate_filepath], the path validator;
    - [write_csv_secure] and [append_csv_secure], the two pipelines.

    Python strings are [string]s, a row (a [dict], whose insertion order
    matters) is an association list, and every call that touches the file
    system goes through a [Host], so that the pipelines are functions from
    worlds to worlds and results. *)

From Stdlib Require Import String Ascii List ZArith Bool DecimalString.
Import ListNotations.
Local Open Scope string_scope.

(** ** Text *)

Module Text.

(** One-character strings for the control characters of the source. *)
Definition TAB : string := String (ascii_of_nat 9) "".
Definition LF : string := String (ascii_of_nat 10) "".
Definition CR : string := String (ascii_of_nat 13) "".
Definition CRLF : string := CR ++ LF.
Definition DQUOTE : string := String (ascii_of_nat 34) "".

(** [s.startswith(p)] for one prefix. *)
Fixpoint startswith1 (p s : string) : bool :=
  match p with
  | EmptyString => true
  | String a p' =>
      match s with
      | EmptyString => false
      | String b s' => Ascii.eqb a b && startswith1 p' s'
      end
  end.

(** [s.startswith(ps)] for a tuple of prefixes. *)
Definition startswith (ps : list string) (s : string) : bool :=
  existsb (fun p => startswith1 p s) ps.

(** [sub in s]. *)
Fixpoint contains (sub s : string) : bool :=
  startswith1 sub s ||
  match s with
  | EmptyString => false
  | String _ t => contains sub t
  end.

(** [s.lower()], on the ASCII letters. *)
Definition lower_ascii (c : ascii) : ascii :=
  let n := nat_of_ascii c in
  if (65 <=? n)%nat && (n <=? 90)%nat then ascii_of_nat (n + 32) else c.

Fixpoint lower (s : string) : string :=
  match s with
  | EmptyString => EmptyString
  | String c t => String (lower_ascii c) (lower t)
  end.

(** [s.rfind(c)]: the index of the last [c], if there is one. *)
Fixpoint rfind (c : ascii) (s : string) : option nat :=
  match s with
  | EmptyString => None
  | String a t =>
      match rfind c t with
      | Some i => Some (S i)
      | None => if Ascii.eqb a c then Some 0%nat else None
      end
  end.

(** [sep.join(xs)]. *)
Fixpoint join (sep : string) (xs : list string) : string :=
  match xs with
  | [] => ""
  | [x] => x
  | x :: rest => x ++ sep ++ join sep rest
  end.

(** [str(n)] for an integer. *)
Definition str_int (n : Z) : string := NilZero.string_of_int (Z.to_int n).

End Text.

(** ** Values and the cell sanitizer *)

(** The scalars a cell can hold.  A floating-point number is carried with the
    text [str] gives for it. *)
Inductive value : Type :=
| VNone
| VStr (s : string)
| VInt (n : Z)
| VBool (b : bool)
| VFloat (repr : string).

(** [str(value)]. *)
Definition str (v : value) : string :=
  match v with
  | VNone => "None"
  | VStr s => s
  | VInt n => Text.str_int n
  | VBool true => "True"
  | VBool false => "False"
  | VFloat repr => repr
  end.

Definition dangerous_prefixes : list string :=
  ["="; "+"; "-"; "@"; Text.TAB; Text.CR; Text.LF].

Definition sanitize_cell (v : value) : string :=
  match v with
  | VNone => ""
  | _ =>
      let str_value := str v in
      if Text.startswith dangerous_prefixes str_value
      then "'" ++ str_value
      else str_value
  end.


(** ** Rows: insertion-ordered dictionaries *)

Module Dict.

Section Dict.
Context {V : Type}.

Definition dict : Type := list (string * V).

(** [d.get(k)]. *)
Fixpoint get (k : string) (d : dict) : option V :=
  match d with
  | [] => None
  | (k', v) :: rest => if String.eqb k k' then Some v else get k rest
  end.

(** [d.get(k, default)]. *)
Definition get_default (k : string) (d : dict) (default : V) : V :=
  match get k d with
  | Some v => v
  | None => default
  end.

(** [d[k] = v]: a key already present keeps its place and takes the new
    value, a new key goes to the end. *)
Fixpoint set (k : string) (v : V) (d : dict) : dict :=
  match d with
  | [] => [(k, v)]
  | (k', v') :: rest =>
      if String.eqb k k' then (k', v) :: rest else (k', v') :: set k v rest
  end.

(** [list(d.keys())]. *)
Definition keys (d : dict) : list string := map fst d.

(** [dict(pairs)], and the dictionary a comprehension builds: the pairs
    are stored one after the other. *)
Definition of_pairs (pairs : list (string * V)) : dict :=
  fold_left (fun d kv => set (fst kv) (snd kv) d) pairs [].

End Dict.

Arguments dict V : clear implicits.

End Dict.

Definition row : Type := Dict.dict value.

(** The comprehension
    [{sanitize_cell(key): sanitize_cell(value) for key, value in row.items()}]. *)
Definition sanitize_row (r : row) : Dict.dict string :=
  Dict.of_pairs
    (map (fun kv => (sanitize_cell (VStr (fst kv)), sanitize_cell (snd kv))) r).

(** [sanitized_data], as the loop over [data] leaves it. *)
Definition sanitized_data (data : list row) : list (Dict.dict string) :=
  map sanitize_row data.

(** [safe_fieldnames = [sanitize_cell(f) for f in fieldnames]]. *)
Definition safe_fieldnames (fieldnames : list string) : list string :=
  map (fun f => sanitize_cell (VStr f)) fieldnames.

(** ** The [csv] writer, dialect excel with [QUOTE_ALL] *)

Module Csv.

(** Every quote character of a field is doubled. *)
Fixpoint double_quotes (s : string) : string :=
  match s with
  | EmptyString => EmptyString
  | String c t =>
      if Ascii.eqb c (ascii_of_nat 34)
      then String c (String c (double_quotes t))
      else String c (double_quotes t)
  end.

Definition quote_field (f : string) : string :=
  Text.DQUOTE ++ double_quotes f ++ Text.DQUOTE.

(** The text [writer.writerow(fields)] hands to the file. *)
Definition record (fields : list string) : string :=
  Text.join "," (map quote_field fields) ++ Text.CRLF.

(** [DictWriter._dict_to_list] with [restval=''] and
    [extrasaction='ignore']. *)
Definition dict_to_list (fieldnames : list string) (rowdict : Dict.dict string)
  : list string :=
  map (fun key => Dict.get_default key rowdict "") fieldnames.

(** The dictionary [writeheader] builds: [dict(zip(fieldnames, fieldnames))]. *)
Definition header (fieldnames : list string) : Dict.dict string :=
  Dict.of_pairs (combine fieldnames fieldnames).

End Csv.

(** ** Paths *)

Record Path : Type := mkPath { path_str : string }.

Module PurePath.

(** [path.name]: the final component. *)
Definition name (p : Path) : string :=
  let s := path_str p in
  match Text.rfind "/" s with
  | Some i => substring (S i) (String.length s - S i) s
  | None => s
  end.

(** [path.suffix]. *)
Definition suffix (p : Path) : string :=
  let n := name p in
  match Text.rfind "." n with
  | Some i =>
      if (0 <? i)%nat && (i <? String.length n - 1)%nat
      then substring i (String.length n - i) n
      else ""
  | None => ""
  end.

(** [path.parent]. *)
Definition parent (p : Path) : Path :=
  let s := path_str p in
  match Text.rfind "/" s with
  | Some 0%nat => mkPath "/"
  | Some i => mkPath (substring 0 i s)
  | None => mkPath "."
  end.

End PurePath.


(** ** Exceptions *)

(** An error of the operating system, with the text [str] gives for it. *)
Inductive os_error : Type := OsError (text : string).

(** The exceptions the module raises or lets through.  [OSError e] is an
    error raised by a host call, [IOError msg cause] is
    [raise IOError(msg) from cause]. *)
Inductive exn : Type :=
| ValueError (msg : string)
| FileNotFoundError (msg : string)
| OSError (e : os_error)
| IOError (msg : string) (cause : exn).

(** [str(e)]. *)
Definition exn_str (x : exn) : string :=
  match x with
  | ValueError msg => msg
  | FileNotFoundError msg => msg
  | OSError (OsError text) => text
  | IOError msg _ => msg
  end.

(** What [except (IOError, OSError)] catches: [IOError] is [OSError], and
    [FileNotFoundError] is one of its subclasses. *)
Definition is_OSError (x : exn) : bool :=
  match x with
  | ValueError _ => false
  | FileNotFoundError _ | OSError _ | IOError _ _ => true
  end.

(** The error kinds of the specification, as the exceptions of the code. *)
Definition empty_input : exn := ValueError "Data cannot be empty".
Definition invalid_path : exn := ValueError "Path traversal detected in filepath".
Definition invalid_extension : exn := ValueError "File must have .csv extension".
Definition not_found (filepath : string) : exn :=
  FileNotFoundError ("CSV file does not exist: " ++ filepath).
Definition no_header : exn := ValueError "Existing CSV file has no headers".
Definition io_failure (cause : exn) : exn :=
  IOError ("Failed to write CSV file: " ++ exn_str cause) cause.

(** ** The host *)

Inductive open_mode : Type := ModeR | ModeW | ModeA.

(** An open text file: what [open(path, mode, newline='', encoding=...)]
    returns. *)
Record file_object : Type := mkFile {
  fo_path : Path;
  fo_mode : open_mode;
  fo_encoding : string
}.

(** The calls the module makes to the operating system and to the [csv]
    reader, over a type [W] of worlds.  [resolve] and [path_exists] only look
    at the world; [Path.resolve()] is not strict and is taken as defined on
    every string.  The other calls return the new world and either an
    operating-system error or their result. *)
Record Host (W : Type) : Type := mkHost {
  os_name : string;
  resolve : string -> W -> Path;
  path_exists : Path -> W -> bool;
  mkdir_parents : Path -> W -> W * (os_error + unit);
  open_file : Path -> open_mode -> string -> W -> W * (os_error + file_object);
  file_write : file_object -> string -> W -> W * (os_error + unit);
  file_close : file_object -> W -> W * (os_error + unit);
  reader_next : file_object -> W -> W * (os_error + option (list string));
  chmod : Path -> Z -> W -> W * (os_error + unit)
}.

Arguments os_name {W}.
Arguments resolve {W}.
Arguments path_exists {W}.
Arguments mkdir_parents {W}.
Arguments open_file {W}.
Arguments file_write {W}.
Arguments file_close {W}.
Arguments reader_next {W}.
Arguments chmod {W}.

(** ** Computations: a world is threaded, an exception ends the run *)

Definition M (W A : Type) : Type := W -> W * (exn + A).

Definition ret {W A} (a : A) : M W A := fun w => (w, inr a).

Definition raise {W A} (x : exn) : M W A := fun w => (w, inl x).

Definition bind {W A B} (m : M W A) (k : A -> M W B) : M W B :=
  fun w =>
    match m w with
    | (w', inl x) => (w', inl x)
    | (w', inr a) => k a w'
    end.

(** A host call that only reads the world. *)
Definition look {W A} (f : W -> A) : M W A := fun w => (w, inr (f w)).

(** A host call that can fail: its error is raised as an [OSError]. *)
Definition call {W A} (f : W -> W * (os_error + A)) : M W A :=
  fun w =>
    match f w with
    | (w', inl e) => (w', inl (OSError e))
    | (w', inr a) => (w', inr a)
    end.

(** [try: m  except (IOError, OSError) as e: handler(e)]. *)
Definition try_except_OSError {W A} (m : M W A) (handler : exn -> M W A)
  : M W A :=
  fun w =>
    match m w with
    | (w', inl x) => if is_OSError x then handler x w' else (w', inl x)
    | (w', inr a) => (w', inr a)
    end.

Declare Scope monad_scope.
Delimit Scope monad_scope with monad.
Notation "x <- m ;; k" := (bind m (fun x => k))
  (at level 61, m at next level, right associativity) : monad_scope.
Notation "m ;; k" := (bind m (fun _ => k))
  (at level 61, right associativity) : monad_scope.

(** [for x in xs: f(x)]. *)
Fixpoint for_each {W A} (f : A -> M W unit) (xs : list A) : M W unit :=
  match xs with
  | [] => ret tt
  | x :: rest => (f x ;; for_each f rest)%monad
  end.

(** ** The module *)

Section Pipelines.

Context {W : Type}.
Variable host : Host W.

Local Open Scope monad_scope.

Local Abbreviation M := (M W).

(** [with open(path, mode, newline='', encoding=encoding) as f: body(f)]:
    the file is closed on every way out of the body, and an error of the
    close is the one that is raised. *)
Definition with_open {A} (path : Path) (mode : open_mode) (encoding : string)
    (body : file_object -> M A) : M A :=
  f <- call (open_file host path mode encoding) ;;
  fun w =>
    match body f w with
    | (w1, r) =>
        match file_close host f w1 with
        | (w2, inl e) => (w2, inl (OSError e))
        | (w2, inr _) => (w2, r)
        end
    end.

(** [csv.DictWriter(csvfile, fieldnames=..., quoting=csv.QUOTE_ALL,
    extrasaction='ignore')]. *)
Record DictWriter : Type := mkDictWriter {
  dw_file : file_object;
  dw_fieldnames : list string
}.

Definition writerow (writer : DictWriter) (rowdict : Dict.dict string)
  : M unit :=
  call (file_write host (dw_file writer)
          (Csv.record (Csv.dict_to_list (dw_fieldnames writer) rowdict))).

Definition writeheader (writer : DictWriter) : M unit :=
  writerow writer (Csv.header (dw_fieldnames writer)).

Definition writerows (writer : DictWriter) (rowdicts : list (Dict.dict string))
  : M unit :=
  for_each (writerow writer) rowdicts.

Definition validate_filepath (filepath : string) : M Path :=
  path <- look (resolve host filepath) ;;
  if Text.contains ".." filepath then raise invalid_path
  else if negb (String.eqb (Text.lower (PurePath.suffix path)) ".csv")
  then raise invalid_extension
  else ret path.

(** The body of the [try] of [write_csv_secure]. *)
Definition write_table (safe_path : Path) (safe_fieldnames : list string)
    (sanitized_data : list (Dict.dict string)) (encoding : string)
    (file_permissions : Z) : M unit :=
  with_open safe_path ModeW encoding (fun csvfile =>
    let writer := mkDictWriter csvfile safe_fieldnames in
    writeheader writer ;;
    writerows writer sanitized_data) ;;
  if negb (String.eqb (os_name host) "nt")
  then call (chmod host safe_path file_permissions)
  else ret tt.

(** [fieldnames], after [if fieldnames is None:
    fieldnames = list(data[0].keys())]. *)
Definition fieldnames_or_inferred (fieldnames : option (list string))
    (first : row) : list string :=
  match fieldnames with
  | None => Dict.keys first
  | Some given => given
  end.

Definition write_csv_secure (filepath : string) (data : list row)
    (fieldnames : option (list string)) (encoding : string)
    (file_permissions : Z) : M unit :=
  match data with
  | [] => raise empty_input
  | first :: _ =>
      safe_path <- validate_filepath filepath ;;
      let fieldnames := fieldnames_or_inferred fieldnames first in
      call (mkdir_parents host (PurePath.parent safe_path)) ;;
      try_except_OSError
        (write_table safe_path (safe_fieldnames fieldnames)
           (sanitized_data data) encoding file_permissions)
        (fun e => raise (io_failure e))
  end.

(** [reader = csv.DictReader(csvfile); fieldnames = reader.fieldnames],
    inside its [with]. *)
Definition read_fieldnames (safe_path : Path) (encoding : string)
  : M (option (list string)) :=
  with_open safe_path ModeR encoding (fun csvfile =>
    call (reader_next host csvfile)).

(** The last [with] of [append_csv_secure]. *)
Definition append_rows (safe_path : Path) (fieldnames : list string)
    (sanitized_data : list (Dict.dict string)) (encoding : string) : M unit :=
  with_open safe_path ModeA encoding (fun csvfile =>
    writerows (mkDictWriter csvfile fieldnames) sanitized_data).

Definition append_csv_secure (filepath : string) (data : list row)
    (encoding : string) : M unit :=
  match data with
  | [] => raise empty_input
  | _ :: _ =>
      safe_path <- validate_filepath filepath ;;
      present <- look (path_exists host safe_path) ;;
      if negb present then raise (not_found filepath)
      else
        fieldnames <- read_fieldnames safe_path encoding ;;
        match fieldnames with
        | None | Some [] => raise no_header
        | Some fieldnames =>
            let sanitized_data := map sanitize_row data in
            append_rows safe_path fieldnames sanitized_data encoding
        end
  end.

End Pipelines.

(** The default arguments of the source. *)
Definition default_encoding : string := "utf-8".
Definition default_file_permissions : Z := 420. (* 0o644 *)

(** ** The [csv] reader, dialect excel, on the text of a file

    The reader of the library takes the lines of the file one by one and
    runs a state machine over their characters, with an end-of-line signal
    after each line; a record is complete when the machine is back in its
    start state.  Here the machine runs over the whole text and stops at the
    first record.  Files are opened with [newline=''], so a line ends at a
    line feed, at a carriage return, or at the two together. *)

Module CsvReader.

Inductive rstate : Type :=
| START_RECORD
| START_FIELD
| IN_FIELD
| IN_QUOTED_FIELD
| QUOTE_IN_QUOTED_FIELD
| EAT_CRNL.

Record parser : Type := mkParser {
  state : rstate;
  fields : list string; (* the fields saved so far, last one first *)
  field : string
}.

Definition initial : parser := mkParser START_RECORD [] "".

Definition goto (st : rstate) (ps : parser) : parser :=
  mkParser st (fields ps) (field ps).

Definition save_field (ps : parser) : parser :=
  mkParser (state ps) (field ps :: fields ps) "".

Definition add_char (c : ascii) (ps : parser) : parser :=
  mkParser (state ps) (fields ps) (field ps ++ String c "").

Definition is_newline (c : ascii) : bool :=
  Ascii.eqb c (ascii_of_nat 10) || Ascii.eqb c (ascii_of_nat 13).

Definition is_quote (c : ascii) : bool := Ascii.eqb c (ascii_of_nat 34).

Definition is_delimiter (c : ascii) : bool := Ascii.eqb c ","%char.

(** The case [START_FIELD] of the machine; [None] is the end-of-line
    signal. *)
Definition start_field (ps : parser) (c : option ascii) : parser :=
  match c with
  | None => goto START_RECORD (save_field ps)
  | Some ch =>
      if is_newline ch then goto EAT_CRNL (save_field ps)
      else if is_quote ch then goto IN_QUOTED_FIELD ps
      else if is_delimiter ch then save_field ps
      else goto IN_FIELD (add_char ch ps)
  end.

(** One step of the machine.  In [EAT_CRNL] the library rejects a
    character that is not a line end; no line holds one after its end, so
    that case keeps the state. *)
Definition process_char (ps : parser) (c : option ascii) : parser :=
  match state ps with
  | START_RECORD =>
      match c with
      | None => ps
      | Some ch =>
          if is_newline ch then goto EAT_CRNL ps
          else start_field (goto START_FIELD ps) c
      end
  | START_FIELD => start_field ps c
  | IN_FIELD =>
      match c with
      | None => goto START_RECORD (save_field ps)
      | Some ch =>
          if is_newline ch then goto EAT_CRNL (save_field ps)
          else if is_delimiter ch then goto START_FIELD (save_field ps)
          else add_char ch ps
      end
  | IN_QUOTED_FIELD =>
      match c with
      | None => ps
      | Some ch =>
          if is_quote ch then goto QUOTE_IN_QUOTED_FIELD ps
          else add_char ch ps
      end
  | QUOTE_IN_QUOTED_FIELD =>
      match c with
      | None => goto START_RECORD (save_field ps)
      | Some ch =>
          if is_quote ch then goto IN_QUOTED_FIELD (add_char ch ps)
          else if is_delimiter ch then goto START_FIELD (save_field ps)
          else if is_newline ch then goto EAT_CRNL (save_field ps)
          else goto IN_FIELD (add_char ch ps)
      end
  | EAT_CRNL =>
      match c with
      | None => goto START_RECORD ps
      | Some _ => ps
      end
  end.

Definition at_start (ps : parser) : bool :=
  match state ps with START_RECORD => true | _ => false end.

Definition in_quoted (ps : parser) : bool :=
  match state ps with IN_QUOTED_FIELD => true | _ => false end.

(** Does the character [c], followed by [rest], end its line? *)
Definition ends_line (c : ascii) (rest : string) : bool :=
  Ascii.eqb c (ascii_of_nat 10) ||
  (Ascii.eqb c (ascii_of_nat 13) &&
   negb (Text.startswith1 Text.LF rest)).

(** What is returned once the input has no more lines. *)
Definition at_end_of_input (ps : parser) : option (list string) :=
  if negb (String.eqb (field ps) "") || in_quoted ps
  then Some (rev (fields (save_field ps)))
  else None.

(** [next(reader)] on the text [s]: the first record, or [None] when there
    is none (the library raises [StopIteration]).  [midline] says that the
    current line has had at least one character. *)
Fixpoint read_record (ps : parser) (midline : bool) (s : string)
  : option (list string) :=
  match s with
  | EmptyString =>
      if midline then
        let ps' := process_char ps None in
        if at_start ps' then Some (rev (fields ps')) else at_end_of_input ps'
      else at_end_of_input ps
  | String c rest =>
      let ps1 := process_char ps (Some c) in
      if ends_line c rest then
        let ps2 := process_char ps1 None in
        if at_start ps2 then Some (rev (fields ps2))
        else read_record ps2 false rest
      else read_record ps1 true rest
  end.

Definition first_record (text : string) : option (list string) :=
  read_record initial false text.

End CsvReader.


(** ** A host in memory

    A file system without symbolic links: a working directory and a table
    from absolute paths to directories and regular files.  It runs the
    pipelines on concrete inputs, with the errors a POSIX system gives. *)

Module MemFS.

Inductive node : Type :=
| Dir
| File (content : string) (perm : Z).

Record fs : Type := mkFs {
  cwd : string;
  nodes : Dict.dict node
}.

(** The components of a path. *)
Fixpoint split_slash (s cur : string) : list string :=
  match s with
  | EmptyString => [cur]
  | String c t =>
      if Ascii.eqb c "/"%char then cur :: split_slash t ""
      else split_slash t (cur ++ String c "")
  end.

(** Empty and [.] components are dropped, [..] removes the one before it. *)
Fixpoint normalize (parts stack : list string) : list string :=
  match parts with
  | [] => rev stack
  | p :: rest =>
      if String.eqb p "" || String.eqb p "." then normalize rest stack
      else if String.eqb p ".." then normalize rest (tl stack)
      else normalize rest (p :: stack)
  end.

Definition components (s : string) : list string :=
  normalize (split_slash s "") [].

Definition mem_resolve (raw : string) (w : fs) : Path :=
  let full := if Text.startswith1 "/" raw then raw else cwd w ++ "/" ++ raw in
  mkPath ("/" ++ Text.join "/" (components full)).

Definition lookup (p : Path) (w : fs) : option node :=
  if String.eqb (path_str p) "/" then Some Dir
  else Dict.get (path_str p) (nodes w).

Definition store (p : Path) (n : node) (w : fs) : fs :=
  mkFs (cwd w) (Dict.set (path_str p) n (nodes w)).

Definition mem_exists (p : Path) (w : fs) : bool :=
  match lookup p w with Some _ => true | None => false end.

Definition is_file (w : fs) (p : Path) : bool :=
  match lookup p w with Some (File _ _) => true | _ => false end.

Definition is_dir (w : fs) (p : Path) : bool :=
  match lookup p w with Some Dir => true | _ => false end.

(** The path itself and the directories above it, from the top. *)
Fixpoint chain (base : string) (parts : list string) : list Path :=
  match parts with
  | [] => []
  | c :: rest =>
      let here := base ++ "/" ++ c in mkPath here :: chain here rest
  end.

Definition errno (code what : string) (p : Path) : os_error :=
  OsError ("[Errno " ++ code ++ "] " ++ what ++ ": '" ++ path_str p ++ "'").

Definition ENOENT := errno "2" "No such file or directory".
Definition EACCES := errno "13" "Permission denied".
Definition EEXIST := errno "17" "File exists".
Definition ENOTDIR := errno "20" "Not a directory".
Definition EISDIR := errno "21" "Is a directory".
Definition EBADF := errno "9" "Bad file descriptor".

(** [path.mkdir(parents=True, exist_ok=True)]. *)
Definition mem_mkdir_parents (p : Path) (w : fs) : fs * (os_error + unit) :=
  let ps := chain "" (components (path_str p)) in
  if is_file w p then (w, inl (EEXIST p))
  else if existsb (is_file w) ps then (w, inl (ENOTDIR p))
  else
    (fold_left (fun w' d => if is_dir w' d then w' else store d Dir w') ps w,
     inr tt).

Definition owner_can_read (perm : Z) : bool := Z.testbit perm 8.
Definition owner_can_write (perm : Z) : bool := Z.testbit perm 7.

(** The mode of a new file: 0o666 under the umask 0o022. *)
Definition new_file_perm : Z := 420.

Definition mem_open (p : Path) (mode : open_mode) (encoding : string) (w : fs)
  : fs * (os_error + file_object) :=
  let f := mkFile p mode encoding in
  match lookup p w with
  | Some Dir => (w, inl (EISDIR p))
  | Some (File content perm) =>
      match mode with
      | ModeR =>
          if owner_can_read perm then (w, inr f) else (w, inl (EACCES p))
      | ModeW =>
          if owner_can_write perm then (store p (File "" perm) w, inr f)
          else (w, inl (EACCES p))
      | ModeA =>
          if owner_can_write perm then (w, inr f) else (w, inl (EACCES p))
      end
  | None =>
      match lookup (PurePath.parent p) w, mode with
      | Some Dir, ModeW | Some Dir, ModeA =>
          (store p (File "" new_file_perm) w, inr f)
      | Some (File _ _), _ => (w, inl (ENOTDIR p))
      | _, _ => (w, inl (ENOENT p))
      end
  end.

Definition mem_write (f : file_object) (text : string) (w : fs)
  : fs * (os_error + unit) :=
  match lookup (fo_path f) w, fo_mode f with
  | Some (File content perm), ModeW | Some (File content perm), ModeA =>
      (store (fo_path f) (File (content ++ text) perm) w, inr tt)
  | _, _ => (w, inl (EBADF (fo_path f)))
  end.

Definition mem_close (f : file_object) (w : fs) : fs * (os_error + unit) :=
  (w, inr tt).

Definition mem_reader_next (f : file_object) (w : fs)
  : fs * (os_error + option (list string)) :=
  match lookup (fo_path f) w, fo_mode f with
  | Some (File content _), ModeR => (w, inr (CsvReader.first_record content))
  | _, _ => (w, inl (EBADF (fo_path f)))
  end.

Definition mem_chmod (p : Path) (perm : Z) (w : fs) : fs * (os_error + unit) :=
  match lookup p w with
  | Some (File content _) => (store p (File content perm) w, inr tt)
  | Some Dir => (w, inr tt)
  | None => (w, inl (ENOENT p))
  end.

Definition host : Host fs := {|
  os_name := "posix";
  resolve := mem_resolve;
  path_exists := mem_exists;
  mkdir_parents := mem_mkdir_parents;
  open_file := mem_open;
  file_write := mem_write;
  file_close := mem_close;
  reader_next := mem_reader_next;
  chmod := mem_chmod
|}.

(** The text of the regular file at [p]. *)
Definition read_text (p : string) (w : fs) : option string :=
  match lookup (mkPath p) w with
  | Some (File content _) => Some content
  | _ => None
  end.

(** A world with the working directory [/home/user] and nothing else. *)
Definition home : fs :=
  mkFs "/home/user" [("/home", Dir); ("/home/user", Dir)].

End MemFS.


(** ** Notions used to state the properties *)

(** The characters that make a spreadsheet read a cell as a formula. *)
Definition dangerous_chars : list ascii :=
  ["="; "+"; "-"; "@"; ascii_of_nat 9; ascii_of_nat 13; ascii_of_nat 10]%char.

(** The text [s] begins with one of them. *)
Definition begins_dangerous (s : string) : Prop :=
  exists c rest, s = String c rest /\ In c dangerous_chars.

(** The value of the last key of [r] whose sanitized name is [column]. *)
Definition last_value (column : string) (r : row) : option value :=
  fold_left
    (fun found kv =>
       if String.eqb (sanitize_cell (VStr (fst kv))) column
       then Some (snd kv) else found)
    r None.

(** A row projected on the columns by its sanitized keys: the field of a
    column is the sanitized value of the last key with that sanitized name,
    and is empty when no key has it. *)
Definition project_sanitized (fieldnames : list string) (r : row)
  : list string :=
  map (fun column =>
         match last_value column r with
         | Some v => sanitize_cell v
         | None => ""
         end)
      fieldnames.

(** A computation whose only exceptions are errors of the host. *)
Definition os_only {W A} (m : M W A) : Prop :=
  forall w w' x, m w = (w', inl x) -> exists e, x = OSError e.





(** The projection as the specification words it for appended rows: each
    column takes the sanitized value stored under that very key. *)
Definition project_literal (fieldnames : list string) (r : row)
  : list string :=
  map (fun column =>
         match Dict.get column r with
         | Some v => sanitize_cell v
         | None => ""
         end)
      fieldnames.

(** The world after [write_csv_secure("t.csv", [{"=x": 1}])] in
    [MemFS.home]. *)
Definition after_write_of_formula_column : MemFS.fs :=
  fst (write_csv_secure MemFS.host "t.csv" [[("=x", VInt 1)]] None
         default_encoding default_file_permissions MemFS.home).

(** A field between two quote characters, as it stands in a file when it
    holds no quote character itself. *)
Definition quoted (f : string) : string := Text.DQUOTE ++ f ++ Text.DQUOTE.

(** [n] empty records. *)
Fixpoint empty_records (n : nat) : string :=
  match n with
  | O => ""
  | S n' => Text.CRLF ++ empty_records n'
  end.

(** The text the rows of a table take in a file, one record for each. *)
Fixpoint rows_text (fieldnames : list string)
    (rowdicts : list (Dict.dict string)) : string :=
  match rowdicts with
  | [] => ""
  | r :: rest =>
      Csv.record (Csv.dict_to_list fieldnames r) ++ rows_text fieldnames rest
  end.

(** The text of a whole table: the header record, then the rows. *)
Definition table_text (fieldnames : list string)
    (rowdicts : list (Dict.dict string)) : string :=
  Csv.record fieldnames ++ rows_text fieldnames rowdicts.

(** Every regular file of [w] is still a regular file in [w'], with the
    same permissions and with its old text at the start of the new one. *)
Definition keeps_files (w w' : MemFS.fs) : Prop :=
  forall q content perm,
    MemFS.lookup q w = Some (MemFS.File content perm) ->
    exists added,
      MemFS.lookup q w' = Some (MemFS.File (content ++ added) perm).

(** Every regular file of [w] other than [target] is the same in [w']. *)
Definition keeps_other_files (target : Path) (w w' : MemFS.fs) : Prop :=
  forall q content perm,
    path_str q <> path_str target ->
    MemFS.lookup q w = Some (MemFS.File content perm) ->
    MemFS.lookup q w' = Some (MemFS.File content perm).

(** [w'] is [w] with the regular file of text [content] and permissions
    [perm] at [target]: the working directory and every other path are as
    in [w]. *)
Definition target_set (target : Path) (content : string) (perm : Z)
    (w w' : MemFS.fs) : Prop :=
  MemFS.cwd w' = MemFS.cwd w /\
  MemFS.lookup target w' = Some (MemFS.File content perm) /\
  forall q,
    path_str q <> path_str target -> MemFS.lookup q w' = MemFS.lookup q w.

(** The target can be opened for writing in [w]: it is absent in a
    directory that exists, or it is a regular file its owner may write. *)
Definition writable_target (target : Path) (w : MemFS.fs) : Prop :=
  (MemFS.lookup target w = None /\
   MemFS.lookup (PurePath.parent target) w = Some MemFS.Dir) \/
  (exists old perm,
     MemFS.lookup target w = Some (MemFS.File old perm) /\
     MemFS.owner_can_write perm = true).

(** A world in which [/home/user/out.csv] is a regular file with some old
    text, next to a file of another name. *)
Definition with_old_report : MemFS.fs :=
  MemFS.mkFs "/home/user"
    [("/home", MemFS.Dir); ("/home/user", MemFS.Dir);
     ("/home/user/out.csv", MemFS.File "old text, longer than the new" 420);
     ("/home/user/notes.txt", MemFS.File "keep me" 384)].

(** A computation that takes every world to one related to it by [R],
    whether it returns or raises. *)
Definition preserves {A} (R : MemFS.fs -> MemFS.fs -> Prop)
    (m : M MemFS.fs A) : Prop :=
  forall w w' r, m w = (w', r) -> R w w'.

(** ** The cell sanitizer *)

Lemma startswith1_char (a c : ascii) (rest : string) :
  Text.startswith1 (String a "") (String c rest) = Ascii.eqb a c.
Proof. simpl. apply andb_true_r. Qed.

Lemma startswith_dangerous_cons (c : ascii) (rest : string) :
  Text.startswith dangerous_prefixes (String c rest) =
  existsb (fun a => Ascii.eqb a c) dangerous_chars.
Proof.
  unfold Text.startswith, dangerous_prefixes, dangerous_chars,
    Text.TAB, Text.CR, Text.LF.
  cbn [existsb]. now rewrite !startswith1_char.
Qed.

Lemma startswith_dangerous (s : string) :
  Text.startswith dangerous_prefixes s = true <-> begins_dangerous s.
Proof.
  unfold begins_dangerous. destruct s as [|c rest].
  - split; [discriminate|]. intros (c & rest & E & _). discriminate.
  - rewrite startswith_dangerous_cons, existsb_exists. split.
    + intros (a & Hin & E). apply Ascii.eqb_eq in E. subst a.
      now exists c, rest.
    + intros (a & rest' & E & Hin). injection E as <- <-.
      exists c. split; [assumption|apply Ascii.eqb_refl].
Qed.

Lemma sanitize_cell_str (s : string) :
  sanitize_cell (VStr s) =
  if Text.startswith dangerous_prefixes s then "'" ++ s else s.
Proof. reflexivity. Qed.

Lemma sanitize_cell_not_none (v : value) :
  v <> VNone ->
  sanitize_cell v = sanitize_cell (VStr (str v)).
Proof. destruct v as [| | |[|]|]; intros H; try reflexivity. contradiction. Qed.

Lemma apostrophe_is_safe (s : string) :
  Text.startswith dangerous_prefixes ("'" ++ s) = false.
Proof. reflexivity. Qed.

(** C1: [sanitize_cell] maps [None] to the empty string; for any other
    value, when its text begins with [=], [+], [-], [@], tab, carriage return
    or line feed the result is an apostrophe followed by that text, and
    otherwise it is that text. *)
Theorem sanitize_cell_spec (v : value) :
  (v = VNone -> sanitize_cell v = "") /\
  (v <> VNone -> begins_dangerous (str v) ->
   sanitize_cell v = "'" ++ str v) /\
  (v <> VNone -> ~ begins_dangerous (str v) ->
   sanitize_cell v = str v).
Proof.
  split; [intros ->; reflexivity|].
  split; intros Hv Hd; rewrite (sanitize_cell_not_none v Hv), sanitize_cell_str.
  - apply startswith_dangerous in Hd. now rewrite Hd.
  - destruct (Text.startswith dangerous_prefixes (str v)) eqn:E; [|reflexivity].
    apply startswith_dangerous in E. contradiction.
Qed.

Lemma sanitize_cell_spec_witness :
  sanitize_cell VNone = "" /\
  sanitize_cell (VStr "=1+1") = "'=1+1" /\
  sanitize_cell (VInt (-3)) = "'-3" /\
  sanitize_cell (VBool true) = "True".
Proof.
  split; [|split; [|split]].
  - apply (sanitize_cell_spec VNone). reflexivity.
  - apply (sanitize_cell_spec (VStr "=1+1")); [discriminate|].
    exists "="%char, "1+1". split; [reflexivity|simpl; tauto].
  - apply (sanitize_cell_spec (VInt (-3))); [discriminate|].
    exists "-"%char, "3". split; [reflexivity|simpl; tauto].
  - apply (sanitize_cell_spec (VBool true)); [discriminate|].
    intros (c & rest & E & Hin). injection E as <- _.
    simpl in Hin. repeat (destruct Hin as [Hin|Hin]; [discriminate|]).
    contradiction.
Defined.

Lemma sanitize_cell_str_idempotent (s : string) :
  sanitize_cell (VStr (sanitize_cell (VStr s))) = sanitize_cell (VStr s).
Proof.
  rewrite (sanitize_cell_str s).
  destruct (Text.startswith dangerous_prefixes s) eqn:E;
    rewrite sanitize_cell_str.
  - now rewrite apostrophe_is_safe.
  - now rewrite E.
Qed.

(** C3: sanitizing the output of [sanitize_cell] changes nothing. *)
Theorem sanitize_cell_idempotent (v : value) :
  sanitize_cell (VStr (sanitize_cell v)) = sanitize_cell v.
Proof.
  destruct v as [|s|n|b|r]; [reflexivity| | | |].
  - apply sanitize_cell_str_idempotent.
  - exact (sanitize_cell_str_idempotent (str (VInt n))).
  - exact (sanitize_cell_str_idempotent (str (VBool b))).
  - exact (sanitize_cell_str_idempotent (str (VFloat r))).
Qed.

(** ** Substrings *)



(** ** The path validator *)

Section Validator.

Context {W : Type}.
Variable host : Host W.



(** The validator never changes the world. *)
Lemma validate_filepath_world (filepath : string) (w w' : W)
    (r : exn + Path) :
  validate_filepath host filepath w = (w', r) -> w' = w.
Proof.
  unfold validate_filepath, bind, look, raise, ret.
  destruct (Text.contains ".." filepath);
    [|destruct (negb _)]; intros E; now injection E.
Qed.

(** What the validator can raise. *)
Lemma validate_filepath_raises (filepath : string) (w w' : W) (x : exn) :
  validate_filepath host filepath w = (w', inl x) ->
  x = invalid_path \/ x = invalid_extension.
Proof.
  unfold validate_filepath, bind, look, raise, ret.
  destruct (Text.contains ".." filepath);
    [|destruct (negb _)]; intros E; injection E as _ E; auto; discriminate.
Qed.

End Validator.



(** ** Which exceptions a computation can raise *)

Section OsOnly.

Context {W : Type}.
Variable host : Host W.

Lemma os_only_ret {A} (a : A) : os_only (ret (W := W) a).
Proof. intros w w' x E. discriminate. Qed.

Lemma os_only_call {A} (f : W -> W * (os_error + A)) : os_only (call f).
Proof.
  intros w w' x. unfold call. destruct (f w) as [w1 [e|a]]; intros E.
  - injection E as _ <-. now exists e.
  - discriminate.
Qed.

Lemma os_only_bind {A B} (m : M W A) (k : A -> M W B) :
  os_only m -> (forall a, os_only (k a)) -> os_only (bind m k).
Proof.
  intros Hm Hk w w' x. unfold bind.
  destruct (m w) as [w1 [y|a]] eqn:E; intros E'.
  - injection E' as <- <-. exact (Hm _ _ _ E).
  - exact (Hk a _ _ _ E').
Qed.

Lemma os_only_for_each {A} (f : A -> M W unit) (xs : list A) :
  (forall a, os_only (f a)) -> os_only (for_each f xs).
Proof.
  intros Hf. induction xs as [|a xs IH]; simpl.
  - apply os_only_ret.
  - apply os_only_bind; [apply Hf|intros _; exact IH].
Qed.

Lemma os_only_with_open {A} (path : Path) (mode : open_mode)
    (encoding : string) (body : file_object -> M W A) :
  (forall f, os_only (body f)) ->
  os_only (with_open host path mode encoding body).
Proof.
  intros Hb. unfold with_open. apply os_only_bind; [apply os_only_call|].
  intros f w w' x.
  destruct (body f w) as [w1 r] eqn:E.
  destruct (file_close host f w1) as [w2 [e|u]]; intros E'.
  - injection E' as _ <-. now exists e.
  - injection E' as _ ->. exact (Hb f _ _ _ E).
Qed.

Lemma os_only_writerows (writer : DictWriter)
    (rowdicts : list (Dict.dict string)) :
  os_only (writerows host writer rowdicts).
Proof. apply os_only_for_each. intros r. apply os_only_call. Qed.

Lemma os_only_write_table (safe_path : Path) (names : list string)
    (rows : list (Dict.dict string)) (encoding : string) (perms : Z) :
  os_only (write_table host safe_path names rows encoding perms).
Proof.
  unfold write_table. apply os_only_bind.
  - apply os_only_with_open. intros f. apply os_only_bind.
    + apply os_only_call.
    + intros _. apply os_only_writerows.
  - intros _. destruct (negb _); [apply os_only_call|apply os_only_ret].
Qed.



(** A failing [open] is the failure of its [with]. *)
Lemma with_open_fails_at_open {A} (path : Path) (mode : open_mode)
    (encoding : string) (body : file_object -> M W A) (w w' : W)
    (e : os_error) :
  open_file host path mode encoding w = (w', inl e) ->
  with_open host path mode encoding body w = (w', inl (OSError e)).
Proof. intros E. unfold with_open, bind, call. now rewrite E. Qed.

Lemma write_table_fails_at_open (safe_path : Path) (names : list string)
    (rows : list (Dict.dict string)) (encoding : string) (perms : Z)
    (w w' : W) (e : os_error) :
  open_file host safe_path ModeW encoding w = (w', inl e) ->
  write_table host safe_path names rows encoding perms w =
    (w', inl (OSError e)).
Proof.
  intros E. unfold write_table, bind.
  now rewrite (with_open_fails_at_open _ _ _ _ _ _ _ E).
Qed.

End OsOnly.

(** ** Rejections of the two pipelines *)

Section Rejections.

Context {W : Type}.
Variable host : Host W.

(** With at least one row, the empty-input error is not what
    [write_csv_secure] raises. *)
Lemma write_csv_secure_nonempty_data (filepath : string) (first : row)
    (rest : list row) (fieldnames : option (list string)) (encoding : string)
    (perms : Z) (w : W) :
  snd (write_csv_secure host filepath (first :: rest) fieldnames encoding
         perms w) <> inl empty_input.
Proof.
  unfold write_csv_secure, bind.
  destruct (validate_filepath host filepath w) as [w0 [x|p]] eqn:Ev.
  - apply validate_filepath_raises in Ev as [->| ->]; discriminate.
  - unfold call at 1.
    destruct (mkdir_parents host (PurePath.parent p) w0) as [w1 [e|u]];
      [discriminate|].
    unfold try_except_OSError.
    destruct (write_table _ _ _ _ _ _ w1) as [w2 [x|u']] eqn:Et;
      [|discriminate].
    apply os_only_write_table in Et as (e & ->). discriminate.
Qed.


End Rejections.

(** C5: with an empty list of rows [write_csv_secure] raises the empty-input
    error and leaves the world as it was, on every host and whatever the
    path: the check comes before the validation of the path and before every
    host call.  On the host in memory neither the directory nor the file of
    the target exists afterwards, where one row is enough to create both. *)
Theorem write_csv_secure_empty_data :
  (forall (W : Type) (host : Host W) (filepath : string)
          (fieldnames : option (list string)) (encoding : string) (perms : Z)
          (w : W),
     write_csv_secure host filepath [] fieldnames encoding perms w =
       (w, inl empty_input)) /\
  (let after :=
     fst (write_csv_secure MemFS.host "new/out.csv" [] None default_encoding
            default_file_permissions MemFS.home) in
   after = MemFS.home /\
   MemFS.mem_exists (mkPath "/home/user/new") after = false /\
   MemFS.mem_exists (mkPath "/home/user/new/out.csv") after = false) /\
  (let after :=
     fst (write_csv_secure MemFS.host "new/out.csv" [[("a", VInt 1)]] None
            default_encoding default_file_permissions MemFS.home) in
   MemFS.mem_exists (mkPath "/home/user/new") after = true /\
   MemFS.mem_exists (mkPath "/home/user/new/out.csv") after = true).
Proof.
  split.
  - intros W host filepath fieldnames encoding perms w.
    unfold write_csv_secure, raise. reflexivity.
  - split; cbv zeta; repeat split.
Qed.



(** ** Dictionaries *)

Lemma get_set {V} (c k : string) (v : V) (d : Dict.dict V) :
  Dict.get c (Dict.set k v d) =
  if String.eqb c k then Some v else Dict.get c d.
Proof.
  induction d as [|[k' v'] d IH]; simpl.
  - reflexivity.
  - destruct (String.eqb_spec k k') as [->|Hk]; simpl.
    + now destruct (String.eqb c k').
    + rewrite IH.
      destruct (String.eqb_spec c k') as [->|Hc]; [|reflexivity].
      destruct (String.eqb_spec k' k) as [->|_]; [contradiction|reflexivity].
Qed.

(** A lookup in a dictionary built from pairs finds the last pair with
    that key. *)
Lemma get_fold_set {V} (c : string) (pairs : list (string * V))
    (d : Dict.dict V) :
  Dict.get c (fold_left (fun d kv => Dict.set (fst kv) (snd kv) d) pairs d) =
  fold_left
    (fun found kv => if String.eqb (fst kv) c then Some (snd kv) else found)
    pairs (Dict.get c d).
Proof.
  revert d. induction pairs as [|[k v] pairs IH]; intros d; simpl.
  - reflexivity.
  - rewrite IH, get_set. now rewrite (String.eqb_sym c k).
Qed.

Lemma get_sanitize_row (c : string) (r : row) :
  Dict.get c (sanitize_row r) = option_map sanitize_cell (last_value c r).
Proof.
  unfold sanitize_row, Dict.of_pairs, last_value.
  rewrite get_fold_set. simpl (Dict.get c []).
  change (@None string) with (option_map sanitize_cell None).
  generalize (@None value) as found.
  induction r as [|[k v] r IH]; intros found; cbn [fold_left map fst snd].
  - reflexivity.
  - rewrite <- IH. f_equal.
    now destruct (String.eqb (sanitize_cell (VStr k)) c).
Qed.

(** The record of a sanitized row holds, for each column, the sanitized
    value of the last key whose sanitized name is that column. *)
Lemma dict_to_list_sanitize_row (fieldnames : list string) (r : row) :
  Csv.dict_to_list fieldnames (sanitize_row r) =
  project_sanitized fieldnames r.
Proof.
  unfold Csv.dict_to_list, project_sanitized. apply map_ext. intros c.
  unfold Dict.get_default. rewrite get_sanitize_row.
  now destruct (last_value c r).
Qed.

(** C9: [sanitize_cell] is not injective, [=a] and ['=a] have the same
    image; two column names with one image give the same safe name twice;
    and when two keys of a row have one image the sanitized row keeps one
    entry, with the value of the later key. *)
Theorem sanitize_cell_not_injective :
  (exists x y : value, x <> y /\ sanitize_cell x = sanitize_cell y) /\
  (VStr "=a" <> VStr "'=a" /\
   sanitize_cell (VStr "=a") = sanitize_cell (VStr "'=a")) /\
  safe_fieldnames ["=a"; "'=a"] = ["'=a"; "'=a"] /\
  MemFS.read_text "/home/user/out.csv"
    (fst (write_csv_secure MemFS.host "out.csv"
            [[("=a", VInt 1); ("'=a", VInt 2)]] None default_encoding
            default_file_permissions MemFS.home)) =
    Some (Csv.record ["'=a"; "'=a"] ++ Csv.record ["2"; "2"]) /\
  (forall (k1 k2 : string) (v1 v2 : value),
     k1 <> k2 ->
     sanitize_cell (VStr k1) = sanitize_cell (VStr k2) ->
     sanitize_row [(k1, v1); (k2, v2)] =
       [(sanitize_cell (VStr k1), sanitize_cell v2)]).
Proof.
  split; [|split; [|split; [|split]]].
  - exists (VStr "=a"), (VStr "'=a"). split; [discriminate|reflexivity].
  - split; [discriminate|reflexivity].
  - reflexivity.
  - reflexivity.
  - intros k1 k2 v1 v2 _ E. unfold sanitize_row, Dict.of_pairs.
    cbn [map fold_left fst snd Dict.set].
    now rewrite <- E, String.eqb_refl.
Qed.

Lemma sanitize_cell_not_injective_witness :
  sanitize_row [("=a", VInt 1); ("'=a", VInt 2)] = [("'=a", "2")].
Proof.
  destruct sanitize_cell_not_injective as (_ & _ & _ & _ & H).
  apply (H "=a" "'=a" (VInt 1) (VInt 2)); [discriminate|reflexivity].
Defined.

(** ** The append pipeline *)

Section Append.

Context {W : Type}.
Variable host : Host W.

Lemma for_each_map {A B} (f : B -> M W unit) (g : A -> B) (xs : list A) :
  for_each f (map g xs) = for_each (fun a => f (g a)) xs.
Proof.
  induction xs as [|a xs IH]; simpl; [reflexivity|]. now rewrite IH.
Qed.

Lemma for_each_ext {A} (f g : A -> M W unit) (xs : list A) :
  (forall a, f a = g a) -> for_each f xs = for_each g xs.
Proof.
  intros H. induction xs as [|a xs IH]; simpl; [reflexivity|].
  now rewrite H, IH.
Qed.

Lemma with_open_ext {A} (path : Path) (mode : open_mode) (encoding : string)
    (body body' : file_object -> M W A) (w : W) :
  (forall f, body f = body' f) ->
  with_open host path mode encoding body w =
  with_open host path mode encoding body' w.
Proof.
  intros H. unfold with_open, bind.
  destruct (call _ w) as [w1 [x|f]]; [reflexivity|]. now rewrite H.
Qed.

(** The rows a [DictWriter] writes for sanitized data, row by row. *)
Lemma writerows_sanitized_data (csvfile : file_object)
    (fieldnames : list string) (data : list row) :
  writerows host (mkDictWriter csvfile fieldnames) (sanitized_data data) =
  for_each
    (fun r =>
       call (file_write host csvfile
               (Csv.record (project_sanitized fieldnames r))))
    data.
Proof.
  unfold writerows, sanitized_data. rewrite for_each_map.
  apply for_each_ext. intros r. unfold writerow. cbn [dw_file dw_fieldnames].
  now rewrite dict_to_list_sanitize_row.
Qed.

(** C6, as the code has it: in [append_csv_secure] the columns are those
    read from the header of the file, used as they are, and no header is
    written; the keys and the values of every new row are both sanitized,
    so a row is projected on the columns by its sanitized keys: a column
    takes the sanitized value of the key whose sanitized name it is, keys
    that match no column are dropped, and a column no key matches is left
    empty. *)
Theorem append_csv_secure_projects_by_sanitized_keys (filepath : string)
    (first : row) (rest : list row) (encoding : string) (safe_path : Path)
    (column : string) (columns : list string) (w w1 : W) :
  validate_filepath host filepath w = (w, inr safe_path) ->
  path_exists host safe_path w = true ->
  read_fieldnames host safe_path encoding w =
    (w1, inr (Some (column :: columns))) ->
  append_csv_secure host filepath (first :: rest) encoding w =
  with_open host safe_path ModeA encoding
    (fun csvfile =>
       for_each
         (fun r =>
            call (file_write host csvfile
                    (Csv.record (project_sanitized (column :: columns) r))))
         (first :: rest))
    w1.
Proof.
  intros Ev Hp Er.
  unfold append_csv_secure, bind. rewrite Ev. unfold look at 1.
  rewrite Hp. cbn [negb]. rewrite Er. unfold append_rows.
  apply with_open_ext. intros f. apply writerows_sanitized_data.
Qed.

End Append.

Lemma append_csv_secure_projects_by_sanitized_keys_witness :
  append_csv_secure MemFS.host "t.csv"
    [[("=x", VInt 2); ("other", VStr "dropped")]] default_encoding
    after_write_of_formula_column =
  with_open MemFS.host (mkPath "/home/user/t.csv") ModeA default_encoding
    (fun csvfile =>
       for_each
         (fun r =>
            call (file_write MemFS.host csvfile
                    (Csv.record (project_sanitized ["'=x"] r))))
         [[("=x", VInt 2); ("other", VStr "dropped")]])
    after_write_of_formula_column /\
  MemFS.read_text "/home/user/t.csv"
    (fst (append_csv_secure MemFS.host "t.csv"
            [[("=x", VInt 2); ("other", VStr "dropped")]] default_encoding
            after_write_of_formula_column)) =
    Some (Csv.record ["'=x"] ++ Csv.record ["1"] ++ Csv.record ["2"]).
Proof.
  split; [|reflexivity].
  apply (append_csv_secure_projects_by_sanitized_keys MemFS.host "t.csv");
    reflexivity.
Defined.

(** C6 as it is worded fails: after [write_csv_secure] has written the
    column [=x] under its safe name ['=x], appending a row with the key
    [=x] fills that column, because the key is sanitized before it is
    matched; matched as it is, the key would find no column and the field
    would be empty. *)
Lemma append_csv_secure_sanitizes_keys :
  MemFS.read_text "/home/user/t.csv" after_write_of_formula_column =
    Some (Csv.record ["'=x"] ++ Csv.record ["1"]) /\
  MemFS.read_text "/home/user/t.csv"
    (fst (append_csv_secure MemFS.host "t.csv" [[("=x", VInt 2)]]
            default_encoding after_write_of_formula_column)) =
    Some (Csv.record ["'=x"] ++ Csv.record ["1"] ++ Csv.record ["2"]) /\
  Csv.dict_to_list ["'=x"] (sanitize_row [("=x", VInt 2)]) = ["2"] /\
  project_literal ["'=x"] [("=x", VInt 2)] = [""] /\
  Csv.dict_to_list ["'=x"] (sanitize_row [("=x", VInt 2)]) <>
    project_literal ["'=x"] [("=x", VInt 2)].
Proof. repeat split. discriminate. Qed.

(** ** Writing and reading back *)

(** *** The reader undoes the writer *)

Lemma append_assoc (a b c : string) : (a ++ b) ++ c = a ++ b ++ c.
Proof. induction a as [|x a IH]; simpl; [reflexivity|now rewrite IH]. Qed.

Lemma append_empty_r (a : string) : a ++ "" = a.
Proof. induction a as [|x a IH]; simpl; [reflexivity|now rewrite IH]. Qed.

Section RoundTrip.

Import CsvReader.

Lemma in_quoted_char (c : ascii) (fs : list string) (acc : string)
    (m : bool) (t : string) :
  is_quote c = false ->
  read_record (mkParser IN_QUOTED_FIELD fs acc) m (String c t) =
  read_record (mkParser IN_QUOTED_FIELD fs (acc ++ String c ""))
    (negb (ends_line c t)) t.
Proof.
  intros Hq. cbn [read_record]. unfold process_char. cbn [state].
  rewrite Hq. unfold add_char. cbn [state fields field].
  destruct (ends_line c t); reflexivity.
Qed.

Lemma in_quoted_quote (fs : list string) (acc : string) (m : bool)
    (t : string) :
  read_record (mkParser IN_QUOTED_FIELD fs acc) m (String (ascii_of_nat 34) t) =
  read_record (mkParser QUOTE_IN_QUOTED_FIELD fs acc) true t.
Proof. reflexivity. Qed.

Lemma quote_after_quote (fs : list string) (acc : string) (m : bool)
    (t : string) :
  read_record (mkParser QUOTE_IN_QUOTED_FIELD fs acc) m (String (ascii_of_nat 34) t) =
  read_record (mkParser IN_QUOTED_FIELD fs (acc ++ String (ascii_of_nat 34) "")) true t.
Proof. reflexivity. Qed.

(** Inside a quoted field the reader collects the field up to the quote
    that closes it. *)
Lemma read_quoted_field (f : string) :
  forall (fs : list string) (acc : string) (m : bool) (t : string),
    read_record (mkParser IN_QUOTED_FIELD fs acc) m
      (Csv.double_quotes f ++ String (ascii_of_nat 34) t) =
    read_record (mkParser QUOTE_IN_QUOTED_FIELD fs (acc ++ f)) true t.
Proof.
  induction f as [|c f IH]; intros fs acc m t.
  - rewrite append_empty_r. apply in_quoted_quote.
  - cbn [Csv.double_quotes].
    destruct (Ascii.eqb c (ascii_of_nat 34)) eqn:Hc.
    + apply Ascii.eqb_eq in Hc. subst c. cbn [append].
      rewrite in_quoted_quote, quote_after_quote, IH.
      now rewrite append_assoc.
    + cbn [append]. rewrite (in_quoted_char c fs acc m _ Hc), IH.
      now rewrite append_assoc.
Qed.

Lemma read_quoted_fields (fields : list string) :
  forall (st : rstate) (fs : list string) (m : bool) (t : string),
    fields <> [] ->
    st = START_RECORD \/ st = START_FIELD ->
    read_record (mkParser st fs "") m
      (Text.join "," (map Csv.quote_field fields) ++ Text.CRLF ++ t) =
    Some (rev fs ++ fields)%list.
Proof.
  induction fields as [|f fields IH]; intros st fs m t Hne Hst;
    [contradiction|].
  assert (Hopen : forall rest,
             read_record (mkParser st fs "") m
               (Csv.quote_field f ++ rest) =
             read_record (mkParser QUOTE_IN_QUOTED_FIELD fs f) true rest).
  { intros rest. unfold Csv.quote_field, Text.DQUOTE.
    rewrite !append_assoc. cbn [append].
    transitivity
      (read_record (mkParser IN_QUOTED_FIELD fs "") true
         (Csv.double_quotes f ++ String (ascii_of_nat 34) rest)).
    - destruct Hst as [-> | ->]; reflexivity.
    - now rewrite read_quoted_field. }
  destruct fields as [|f' fields].
  - cbn [map Text.join]. rewrite Hopen. cbn [rev]. reflexivity.
  - change (Text.join "," (map Csv.quote_field (f :: f' :: fields)))
      with (Csv.quote_field f ++ "," ++
            Text.join "," (map Csv.quote_field (f' :: fields))).
    rewrite !append_assoc, Hopen. cbn [append].
    transitivity
      (read_record (mkParser START_FIELD (f :: fs) "") true
         (Text.join "," (map Csv.quote_field (f' :: fields)) ++
          Text.CRLF ++ t)).
    + reflexivity.
    + rewrite IH; [|discriminate|now right].
      cbn [rev]. now rewrite <- app_assoc.
Qed.

(** Reading the text of a written record gives back its fields, whatever
    they hold and whatever follows. *)
Lemma first_record_of_record (fields : list string) (t : string) :
  first_record (Csv.record fields ++ t) = Some fields.
Proof.
  unfold first_record, Csv.record, initial. rewrite append_assoc.
  destruct fields as [|f fields].
  - reflexivity.
  - rewrite read_quoted_fields; [reflexivity|discriminate|now left].
Qed.

End RoundTrip.

(** C8: [write_csv_secure("out.csv", [{"name": "=SUM(A1:A10)", "score":
    100}])] succeeds and leaves a file of two records, the header with
    [name] and [score] and the row with ['=SUM(A1:A10)] and [100], every
    field between double quotes; read back, the two records give these
    fields.  For every record the writer makes, the fields stand between
    double quotes with their own quote characters doubled, and the reader
    gives them back. *)
Theorem write_csv_secure_formula_scenario :
  let run :=
    write_csv_secure MemFS.host "out.csv"
      [[("name", VStr "=SUM(A1:A10)"); ("score", VInt 100)]] None
      default_encoding default_file_permissions MemFS.home in
  let header_record := quoted "name" ++ "," ++ quoted "score" ++ Text.CRLF in
  let data_record :=
    quoted "'=SUM(A1:A10)" ++ "," ++ quoted "100" ++ Text.CRLF in
  snd run = inr tt /\
  MemFS.read_text "/home/user/out.csv" (fst run) =
    Some (header_record ++ data_record) /\
  CsvReader.first_record (header_record ++ data_record) =
    Some ["name"; "score"] /\
  CsvReader.first_record data_record = Some ["'=SUM(A1:A10)"; "100"] /\
  (forall fields : list string,
     Csv.record fields =
     Text.join "," (map (fun f => quoted (Csv.double_quotes f)) fields) ++
     Text.CRLF) /\
  (forall (fields : list string) (t : string),
     CsvReader.first_record (Csv.record fields ++ t) = Some fields).
Proof.
  repeat split.
  apply first_record_of_record.
Qed.


(** ** Rows without columns, on the host in memory *)

Section NoColumns.

Import MemFS.

Lemma lookup_store (p : Path) (n : node) (w : fs) :
  path_str p <> "/" -> lookup p (store p n w) = Some n.
Proof.
  intros Hp. unfold lookup, store. cbn [nodes].
  apply String.eqb_neq in Hp. rewrite Hp, get_set.
  now rewrite String.eqb_refl.
Qed.

Lemma mem_write_appends (f : file_object) (text : string) (w : fs)
    (content : string) (perm : Z) :
  fo_mode f = ModeW ->
  lookup (fo_path f) w = Some (File content perm) ->
  mem_write f text w =
    (store (fo_path f) (File (content ++ text) perm) w, inr tt).
Proof. intros Hm Hl. unfold mem_write. now rewrite Hl, Hm. Qed.

(** With no column every row is written as an empty record. *)
Lemma mem_writerows_no_columns (rows : list (Dict.dict string)) :
  forall (f : file_object) (w : fs) (content : string) (perm : Z),
    fo_mode f = ModeW ->
    path_str (fo_path f) <> "/" ->
    lookup (fo_path f) w = Some (File content perm) ->
    exists w',
      writerows host (mkDictWriter f []) rows w = (w', inr tt) /\
      lookup (fo_path f) w' =
        Some (File (content ++ empty_records (length rows)) perm).
Proof.
  induction rows as [|r rows IH]; intros f w content perm Hm Hp Hl.
  - exists w. split; [reflexivity|]. cbn [length empty_records].
    now rewrite append_empty_r.
  - unfold writerows. cbn [for_each]. unfold bind, writerow, call.
    cbn [dw_file dw_fieldnames file_write host].
    rewrite (mem_write_appends f _ w content perm Hm Hl).
    destruct (IH f (store (fo_path f) (File (content ++ Text.CRLF) perm) w)
                (content ++ Text.CRLF) perm Hm Hp (lookup_store _ _ _ Hp))
      as (w' & Hrun & Hl').
    exists w'. split; [exact Hrun|].
    rewrite Hl'. cbn [length empty_records]. now rewrite append_assoc.
Qed.

Lemma mem_write_table_no_columns (rows : list (Dict.dict string))
    (encoding : string) (perms : Z) :
  exists w',
    write_table host (mkPath "/home/user/out.csv") [] rows encoding perms
      home = (w', inr tt) /\
    read_text "/home/user/out.csv" w' =
      Some (empty_records (S (length rows))).
Proof.
  set (p := mkPath "/home/user/out.csv").
  set (f := mkFile p ModeW encoding).
  set (w1 := store p (File "" new_file_perm) home).
  assert (Hp : path_str (fo_path f) <> "/") by discriminate.
  destruct (mem_writerows_no_columns rows f
              (store p (File ("" ++ Text.CRLF) new_file_perm) w1)
              ("" ++ Text.CRLF) new_file_perm eq_refl Hp
              (lookup_store _ _ _ Hp)) as (w3 & Hrows & Hl3).
  exists (store p (File (("" ++ Text.CRLF) ++ empty_records (length rows))
                     perms) w3).
  split.
  - unfold write_table, with_open, bind.
    change (call (open_file host p ModeW encoding) home)
      with (w1, @inr exn _ f).
    cbv beta iota. unfold writeheader, writerow at 1, call at 1.
    cbn [dw_file dw_fieldnames file_write host].
    rewrite (mem_write_appends f _ w1 "" new_file_perm eq_refl eq_refl).
    change (Csv.record (Csv.dict_to_list [] (Csv.header []))) with Text.CRLF.
    change (fo_path f) with p.
    rewrite Hrows.
    cbn [file_close host mem_close].
    change (negb (os_name host =? "nt")) with true. cbv beta iota.
    unfold call. cbn [chmod host]. unfold mem_chmod.
    change (fo_path f) with p in Hl3. now rewrite Hl3.
  - unfold read_text.
    change (mkPath "/home/user/out.csv") with p.
    rewrite lookup_store by discriminate. reflexivity.
Qed.

End NoColumns.

(** C10: a list of rows whose first row is empty, with no columns given,
    is not rejected: the columns taken from the first row are none, the
    call succeeds, and the file holds an empty header record and one empty
    record for each row.  With at least one row the empty-input error is
    never the outcome, on any host. *)
Theorem write_csv_secure_empty_first_row :
  fieldnames_or_inferred None [] = [] /\
  (forall (rest : list row) (encoding : string) (perms : Z),
     let data := [] :: rest in
     let run :=
       write_csv_secure MemFS.host "out.csv" data None encoding perms
         MemFS.home in
     snd run = inr tt /\
     MemFS.read_text "/home/user/out.csv" (fst run) =
       Some (empty_records (1 + length data))) /\
  (forall (W : Type) (host : Host W) (filepath : string) (first : row)
          (rest : list row) (fieldnames : option (list string))
          (encoding : string) (perms : Z) (w : W),
     snd (write_csv_secure host filepath (first :: rest) fieldnames encoding
            perms w) <> inl empty_input).
Proof.
  split; [reflexivity|split].
  - intros rest encoding perms data run. subst run data.
    destruct (mem_write_table_no_columns (sanitized_data ([] :: rest))
                encoding perms) as (w' & Hrun & Hread).
    unfold write_csv_secure, bind.
    change (validate_filepath MemFS.host "out.csv" MemFS.home)
      with (MemFS.home, @inr exn _ (mkPath "/home/user/out.csv")).
    cbv beta iota.
    change (call (mkdir_parents MemFS.host
                    (PurePath.parent (mkPath "/home/user/out.csv")))
              MemFS.home)
      with (MemFS.home, @inr exn _ tt).
    cbv beta iota. unfold try_except_OSError.
    change (safe_fieldnames (fieldnames_or_inferred None []))
      with (@nil string).
    rewrite Hrun. cbn [fst snd]. split; [reflexivity|].
    rewrite Hread. unfold sanitized_data. now rewrite length_map.
  - intros W host. apply write_csv_secure_nonempty_data.
Qed.

Lemma write_csv_secure_empty_first_row_witness :
  MemFS.read_text "/home/user/out.csv"
    (fst (write_csv_secure MemFS.host "out.csv" [[]; [("a", VInt 1)]] None
            default_encoding default_file_permissions MemFS.home)) =
    Some (Text.CRLF ++ Text.CRLF ++ Text.CRLF) /\
  snd (write_csv_secure MemFS.host "../evil.csv" [[]] None default_encoding
         default_file_permissions MemFS.home) <> inl empty_input.
Proof.
  destruct write_csv_secure_empty_first_row as (_ & Hfile & Hnot).
  split.
  - exact (proj2 (Hfile [[("a", VInt 1)]] default_encoding
                    default_file_permissions)).
  - apply Hnot.
Defined.

(** ** More on the cell sanitizer *)

Lemma startswith_sanitize_cell (v : value) :
  Text.startswith dangerous_prefixes (sanitize_cell v) = false.
Proof.
  destruct v as [|s|n|b|r]; [reflexivity| | | |];
    match goal with |- context [sanitize_cell ?x] =>
      change (sanitize_cell x) with (sanitize_cell (VStr (str x)));
      rewrite (sanitize_cell_str (str x));
      destruct (Text.startswith dangerous_prefixes (str x)) eqn:E;
      [apply apostrophe_is_safe|exact E]
    end.
Qed.

(** X1: the text [sanitize_cell] returns never begins with one of the
    dangerous characters, whatever the value: the test of the sanitizer
    does not fire on it. *)
Theorem sanitize_cell_output_is_safe (v : value) :
  Text.startswith dangerous_prefixes (sanitize_cell v) = false /\
  ~ begins_dangerous (sanitize_cell v).
Proof.
  split; [apply startswith_sanitize_cell|].
  intros H. apply startswith_dangerous in H.
  now rewrite startswith_sanitize_cell in H.
Qed.

(** X2: two texts have the same sanitized form only when they are equal or
    one is the other with an apostrophe in front. *)
Theorem sanitize_cell_collisions (a b : string) :
  sanitize_cell (VStr a) = sanitize_cell (VStr b) ->
  a = b \/ a = "'" ++ b \/ b = "'" ++ a.
Proof.
  rewrite !sanitize_cell_str.
  destruct (Text.startswith dangerous_prefixes a) eqn:Ea,
           (Text.startswith dangerous_prefixes b) eqn:Eb; intros E.
  - left. now injection E.
  - right; right. now symmetry.
  - right; left. exact E.
  - left. exact E.
Qed.

Lemma sanitize_cell_collisions_witness :
  "=a" = "'=a" \/ "=a" = "'" ++ "'=a" \/ "'=a" = "'" ++ "=a".
Proof. apply (sanitize_cell_collisions "=a" "'=a"). reflexivity. Defined.

(** ** More on the validator and on the rejections *)

Section Outcomes.

Context {W : Type}.
Variable host : Host W.

(** X3: a path the validator accepts has no two dots in a row in its raw
    text, the path returned is the resolved one, its suffix in lower case
    is [.csv], and the world is as before. *)
Theorem validate_filepath_accepts (filepath : string) (w w' : W) (p : Path) :
  validate_filepath host filepath w = (w', inr p) ->
  w' = w /\
  p = resolve host filepath w /\
  Text.contains ".." filepath = false /\
  Text.lower (PurePath.suffix p) = ".csv".
Proof.
  unfold validate_filepath, bind, look, raise, ret.
  destruct (Text.contains ".." filepath); [discriminate|].
  destruct (String.eqb_spec
              (Text.lower (PurePath.suffix (resolve host filepath w)))
              ".csv") as [Hs|Hs]; cbn [negb]; [|discriminate].
  intros E. injection E as <- <-. auto.
Qed.

(** X4: a path the validator rejects makes both pipelines raise that same
    rejection with the world untouched: with rows to write, nothing is
    created, opened or read before the path is accepted. *)
Theorem rejected_path_stops_both_pipelines (filepath : string) (first : row)
    (rest : list row) (fieldnames : option (list string)) (encoding : string)
    (perms : Z) (w : W) (x : exn) :
  validate_filepath host filepath w = (w, inl x) ->
  write_csv_secure host filepath (first :: rest) fieldnames encoding perms w =
    (w, inl x) /\
  append_csv_secure host filepath (first :: rest) encoding w = (w, inl x).
Proof.
  intros E. unfold write_csv_secure, append_csv_secure, bind.
  now rewrite E.
Qed.

(** X5: appending to a path that does not exist raises
    [FileNotFoundError] with the path as the caller gave it, and the world
    is untouched: the file is not created. *)
Theorem append_csv_secure_missing_file (filepath : string) (first : row)
    (rest : list row) (encoding : string) (safe_path : Path) (w : W) :
  validate_filepath host filepath w = (w, inr safe_path) ->
  path_exists host safe_path w = false ->
  append_csv_secure host filepath (first :: rest) encoding w =
    (w, inl (FileNotFoundError ("CSV file does not exist: " ++ filepath))).
Proof.
  intros Ev Hp. unfold append_csv_secure, bind. rewrite Ev.
  unfold look. now rewrite Hp.
Qed.



End Outcomes.

Lemma validate_filepath_accepts_witness :
  MemFS.home = MemFS.home /\
  mkPath "/home/user/data/Out.CSV" =
    resolve MemFS.host "data/Out.CSV" MemFS.home /\
  Text.contains ".." "data/Out.CSV" = false /\
  Text.lower (PurePath.suffix (mkPath "/home/user/data/Out.CSV")) = ".csv".
Proof.
  apply (validate_filepath_accepts MemFS.host "data/Out.CSV" MemFS.home).
  reflexivity.
Defined.

Lemma rejected_path_stops_both_pipelines_witness :
  write_csv_secure MemFS.host "../evil.csv" [[("a", VInt 1)]] None
    default_encoding default_file_permissions MemFS.home =
    (MemFS.home, inl invalid_path) /\
  append_csv_secure MemFS.host "../evil.csv" [[("a", VInt 1)]]
    default_encoding MemFS.home = (MemFS.home, inl invalid_path).
Proof.
  apply (rejected_path_stops_both_pipelines MemFS.host "../evil.csv").
  reflexivity.
Defined.

Lemma append_csv_secure_missing_file_witness :
  append_csv_secure MemFS.host "./new.csv" [[("a", VInt 1)]]
    default_encoding MemFS.home =
    (MemFS.home,
     inl (FileNotFoundError "CSV file does not exist: ./new.csv")).
Proof.
  apply (append_csv_secure_missing_file MemFS.host "./new.csv" _ _ _
           (mkPath "/home/user/new.csv")); reflexivity.
Defined.



(** ** What a record holds *)

Lemma fold_pairs_of_itself (c : string) (names : list string) :
  forall found : option string,
    fold_left
      (fun found kv => if String.eqb (fst kv) c then Some (snd kv) else found)
      (combine names names) found =
    if existsb (String.eqb c) names then Some c else found.
Proof.
  induction names as [|n names IH]; intros found; cbn [combine fold_left].
  - reflexivity.
  - rewrite IH. cbn [existsb fst snd]. rewrite (String.eqb_sym c n).
    destruct (String.eqb_spec n c) as [->|_]; cbn [orb].
    + now destruct (existsb (String.eqb c) names).
    + reflexivity.
Qed.

Lemma dict_to_list_header (names : list string) :
  Csv.dict_to_list names (Csv.header names) = names.
Proof.
  unfold Csv.dict_to_list, Csv.header, Dict.of_pairs.
  transitivity (map (fun c : string => c) names); [|apply map_id].
  apply map_ext_in. intros c Hc.
  unfold Dict.get_default. rewrite get_fold_set, fold_pairs_of_itself.
  assert (E : existsb (String.eqb c) names = true).
  { apply existsb_exists. exists c. split; [exact Hc|apply String.eqb_refl]. }
  now rewrite E.
Qed.

(** X8: the record [writeheader] writes lists the column names themselves,
    in their order, also when a name comes more than once. *)
Theorem header_record_lists_the_names (names : list string) :
  Csv.dict_to_list names (Csv.header names) = names /\
  Csv.record (Csv.dict_to_list names (Csv.header names)) = Csv.record names.
Proof.
  split.
  - apply dict_to_list_header.
  - f_equal. apply dict_to_list_header.
Qed.

(** X9: the text of a record determines its fields: two lists of fields
    whose records are equal, whatever follows each, are the same list.  No
    comma, quote or line end inside a field can pass for a boundary. *)
Theorem record_determines_fields (a b : list string) (t u : string) :
  Csv.record a ++ t = Csv.record b ++ u -> a = b.
Proof.
  intros E.
  assert (H : CsvReader.first_record (Csv.record a ++ t) =
              CsvReader.first_record (Csv.record b ++ u)) by now rewrite E.
  rewrite !first_record_of_record in H. now injection H.
Qed.

Lemma record_determines_fields_witness :
  ["x,y"; Text.CRLF ++ "z"] = ["x,y"; Text.CRLF ++ "z"].
Proof.
  apply (record_determines_fields _ _ "" ""). reflexivity.
Defined.

Lemma last_value_app (c : string) (r1 r2 : row) :
  last_value c (r1 ++ r2)%list =
  match last_value c r2 with
  | Some v => Some v
  | None => last_value c r1
  end.
Proof.
  unfold last_value. rewrite fold_left_app.
  generalize (fold_left
                (fun found kv =>
                   if String.eqb (sanitize_cell (VStr (fst kv))) c
                   then Some (snd kv) else found) r1 None) as found1.
  induction r2 as [|[k v] r2 IH] using rev_ind; intros found1.
  - reflexivity.
  - rewrite !fold_left_app. cbn [fold_left fst snd].
    destruct (String.eqb (sanitize_cell (VStr k)) c); [reflexivity|apply IH].
Qed.

Lemma last_value_none (c : string) (r : row) :
  (forall k v, In (k, v) r -> sanitize_cell (VStr k) <> c) ->
  last_value c r = None.
Proof.
  induction r as [|[k v] r IH] using rev_ind; intros H; [reflexivity|].
  rewrite last_value_app. unfold last_value at 1. cbn [fold_left fst snd].
  assert (Hk : sanitize_cell (VStr k) <> c)
    by (apply (H k v), in_or_app; right; now left).
  apply String.eqb_neq in Hk. rewrite Hk. apply IH.
  intros k' v' Hin. apply (H k' v'), in_or_app. now left.
Qed.

(** X10: a column that is the sanitized name of no key of the row is left
    empty in the record of that row. *)
Theorem column_without_key_is_blank (column : string) (r : row) :
  (forall k v, In (k, v) r -> sanitize_cell (VStr k) <> column) ->
  Dict.get column (sanitize_row r) = None /\
  Csv.dict_to_list [column] (sanitize_row r) = [""].
Proof.
  intros H. apply last_value_none in H.
  split.
  - now rewrite get_sanitize_row, H.
  - rewrite dict_to_list_sanitize_row. unfold project_sanitized.
    cbn [map]. now rewrite H.
Qed.

Lemma column_without_key_is_blank_witness :
  Dict.get "email" (sanitize_row [("name", VStr "Bob"); ("score", VInt 87)]) =
    None /\
  Csv.dict_to_list ["email"]
    (sanitize_row [("name", VStr "Bob"); ("score", VInt 87)]) = [""].
Proof.
  apply (column_without_key_is_blank "email").
  intros k v [E|[E|[]]]; injection E as <- _; discriminate.
Defined.

(** X11: the field of a column is the sanitized value of the last key of
    the row whose sanitized name is that column. *)
Theorem last_matching_key_fills_the_column (before after : row) (k : string)
    (v : value) :
  (forall k' v', In (k', v') after ->
     sanitize_cell (VStr k') <> sanitize_cell (VStr k)) ->
  Dict.get (sanitize_cell (VStr k)) (sanitize_row (before ++ (k, v) :: after)%list)
  = Some (sanitize_cell v).
Proof.
  intros H. rewrite get_sanitize_row.
  change (before ++ (k, v) :: after)%list
    with (before ++ [(k, v)] ++ after)%list.
  rewrite app_assoc, last_value_app, (last_value_none _ after H).
  rewrite last_value_app. unfold last_value at 1. cbn [fold_left fst snd].
  now rewrite String.eqb_refl.
Qed.

Lemma last_matching_key_fills_the_column_witness :
  Dict.get "'=a"
    (sanitize_row [("=a", VInt 1); ("'=a", VStr "+2"); ("b", VNone)]) =
  Some "'+2".
Proof.
  apply (last_matching_key_fills_the_column [("=a", VInt 1)] [("b", VNone)]
           "'=a" (VStr "+2")).
  intros k' v' [E|[]]. injection E as <- _. discriminate.
Defined.

(** X12: a key whose sanitized name is not a column has no effect on the
    record of its row: it is dropped. *)
Theorem key_without_column_is_dropped (names : list string)
    (before after : row) (k : string) (v : value) :
  ~ In (sanitize_cell (VStr k)) names ->
  Csv.dict_to_list names (sanitize_row (before ++ (k, v) :: after)%list) =
  Csv.dict_to_list names (sanitize_row (before ++ after)%list).
Proof.
  intros H. rewrite !dict_to_list_sanitize_row. unfold project_sanitized.
  apply map_ext_in. intros c Hc.
  change (before ++ (k, v) :: after)%list
    with (before ++ [(k, v)] ++ after)%list.
  rewrite app_assoc, !(last_value_app c _ after), last_value_app.
  unfold last_value at 2. cbn [fold_left fst snd].
  destruct (String.eqb_spec (sanitize_cell (VStr k)) c) as [E|_];
    [subst c; contradiction|reflexivity].
Qed.

Lemma key_without_column_is_dropped_witness :
  Csv.dict_to_list ["name"; "score"]
    (sanitize_row [("name", VStr "Bob"); ("note", VStr "x"); ("score", VInt 87)])
  =
  Csv.dict_to_list ["name"; "score"]
    (sanitize_row ([("name", VStr "Bob")] ++ [("score", VInt 87)])%list).
Proof.
  apply (key_without_column_is_dropped ["name"; "score"]
           [("name", VStr "Bob")] [("score", VInt 87)] "note" (VStr "x")).
  intros [E|[E|[]]]; discriminate.
Defined.

(** X13: no field of a record begins with a dangerous character: neither a
    header field [write_csv_secure] makes from a column name, nor a field
    made from a row, whatever the columns are. *)
Theorem written_fields_are_safe (fieldnames names : list string) (r : row) :
  Forall (fun f => Text.startswith dangerous_prefixes f = false)
    (safe_fieldnames fieldnames) /\
  Forall (fun f => Text.startswith dangerous_prefixes f = false)
    (Csv.dict_to_list names (sanitize_row r)).
Proof.
  split.
  - unfold safe_fieldnames. apply Forall_map, Forall_forall.
    intros f _. apply startswith_sanitize_cell.
  - rewrite dict_to_list_sanitize_row. unfold project_sanitized.
    apply Forall_map, Forall_forall. intros c _.
    destruct (last_value c r); [apply startswith_sanitize_cell|reflexivity].
Qed.

(** ** What the write pipeline hands to the host *)

Section WriteTable.

Context {W : Type}.
Variable host : Host W.

Local Open Scope monad_scope.

Lemma write_table_steps (safe_path : Path) (fieldnames : list string)
    (data : list row) (encoding : string) (perms : Z) (w : W) :
  write_table host safe_path fieldnames (sanitized_data data) encoding perms w
  =
  (with_open host safe_path ModeW encoding (fun csvfile =>
     call (file_write host csvfile (Csv.record fieldnames)) ;;
     for_each
       (fun r =>
          call (file_write host csvfile
                  (Csv.record (project_sanitized fieldnames r))))
       data) ;;
   if negb (String.eqb (os_name host) "nt")
   then call (chmod host safe_path perms)
   else ret tt) w.
Proof.
  unfold write_table, bind at 1 3.
  rewrite (with_open_ext host safe_path ModeW encoding _
             (fun csvfile =>
                call (file_write host csvfile (Csv.record fieldnames)) ;;
                for_each
                  (fun r =>
                     call (file_write host csvfile
                             (Csv.record (project_sanitized fieldnames r))))
                  data) w); [reflexivity|].
  intros f. unfold writeheader, writerow. cbn [dw_file dw_fieldnames].
  now rewrite dict_to_list_header, writerows_sanitized_data.
Qed.

(** X14: once the path is accepted and the directory is there,
    [write_csv_secure] opens the target for writing, writes the record of
    the sanitized column names, then for each row, in order, the record of
    the row projected on these names by its sanitized keys, closes the
    file, and changes the permissions unless the host is [nt]; an error of
    the host in any of these steps is raised as an [IOError]. *)
Theorem write_csv_secure_steps (filepath : string) (first : row)
    (rest : list row) (fieldnames : option (list string)) (encoding : string)
    (perms : Z) (safe_path : Path) (w w1 : W) :
  validate_filepath host filepath w = (w, inr safe_path) ->
  mkdir_parents host (PurePath.parent safe_path) w = (w1, inr tt) ->
  let names := safe_fieldnames (fieldnames_or_inferred fieldnames first) in
  write_csv_secure host filepath (first :: rest) fieldnames encoding perms w =
  try_except_OSError
    (with_open host safe_path ModeW encoding (fun csvfile =>
       call (file_write host csvfile (Csv.record names)) ;;
       for_each
         (fun r =>
            call (file_write host csvfile
                    (Csv.record (project_sanitized names r))))
         (first :: rest)) ;;
     if negb (String.eqb (os_name host) "nt")
     then call (chmod host safe_path perms)
     else ret tt)
    (fun e => raise (io_failure e))
    w1.
Proof.
  intros Ev Em names.
  unfold write_csv_secure. unfold bind at 1. rewrite Ev.
  unfold bind at 1, call at 1. rewrite Em.
  unfold try_except_OSError. fold names.
  now rewrite write_table_steps.
Qed.

End WriteTable.

Lemma write_csv_secure_steps_witness :
  write_csv_secure MemFS.host "out.csv"
    [[("name", VStr "=1"); ("extra", VNone)]] (Some ["-n"; "name"])
    default_encoding default_file_permissions MemFS.home =
  try_except_OSError
    (bind
       (with_open MemFS.host (mkPath "/home/user/out.csv") ModeW
          default_encoding
          (fun csvfile =>
             bind
               (call (file_write MemFS.host csvfile
                        (Csv.record ["'-n"; "name"])))
               (fun _ =>
                  for_each
                    (fun r =>
                       call (file_write MemFS.host csvfile
                               (Csv.record
                                  (project_sanitized ["'-n"; "name"] r))))
                    [[("name", VStr "=1"); ("extra", VNone)]])))
       (fun _ =>
          if negb (String.eqb (os_name MemFS.host) "nt")
          then call (chmod MemFS.host (mkPath "/home/user/out.csv")
                       default_file_permissions)
          else ret tt))
    (fun e => raise (io_failure e))
    MemFS.home.
Proof.
  apply (write_csv_secure_steps MemFS.host "out.csv"); reflexivity.
Defined.

(** ** The pipelines on the host in memory *)

Section InMemory.

Import MemFS.

Lemma lookup_store_other (p q : Path) (n : node) (w : fs) :
  path_str q <> path_str p -> lookup q (store p n w) = lookup q w.
Proof.
  intros H. unfold lookup, store. cbn [nodes]. rewrite get_set.
  apply String.eqb_neq in H. now rewrite H.
Qed.

Lemma file_is_not_root (p : Path) (w : fs) (content : string) (perm : Z) :
  lookup p w = Some (File content perm) -> path_str p <> "/".
Proof.
  unfold lookup. intros H E. rewrite E in H. discriminate.
Qed.

Lemma csv_path_is_not_root (p : Path) :
  Text.lower (PurePath.suffix p) = ".csv" -> path_str p <> "/".
Proof.
  intros H E. destruct p as [s]. cbn in E. subst s. discriminate.
Qed.

Lemma target_set_store (p : Path) (content : string) (perm : Z) (w : fs) :
  path_str p <> "/" ->
  target_set p content perm w (store p (File content perm) w).
Proof.
  intros Hp. split; [reflexivity|split].
  - now apply lookup_store.
  - intros q Hq. now apply lookup_store_other.
Qed.

Lemma target_set_same (p : Path) (content : string) (perm : Z) (w : fs) :
  lookup p w = Some (File content perm) -> target_set p content perm w w.
Proof. intros H. split; [reflexivity|split; [exact H|reflexivity]]. Qed.

Lemma target_set_then (p : Path) (c1 c2 : string) (perm1 perm2 : Z)
    (w w1 w2 : fs) :
  target_set p c1 perm1 w w1 ->
  target_set p c2 perm2 w1 w2 ->
  target_set p c2 perm2 w w2.
Proof.
  intros (Hc1 & _ & Ho1) (Hc2 & Hl2 & Ho2).
  split; [congruence|split; [exact Hl2|]].
  intros q Hq. rewrite (Ho2 q Hq). now apply Ho1.
Qed.

Lemma mem_write_adds (f : file_object) (text : string) (w : fs)
    (content : string) (perm : Z) :
  fo_mode f <> ModeR ->
  lookup (fo_path f) w = Some (File content perm) ->
  mem_write f text w =
    (store (fo_path f) (File (content ++ text) perm) w, inr tt).
Proof.
  intros Hm Hl. unfold mem_write. rewrite Hl.
  destruct (fo_mode f); [contradiction|reflexivity|reflexivity].
Qed.

(** The rows go to the end of the file, one record after the other. *)
Lemma mem_writerows (names : list string) (rows : list (Dict.dict string)) :
  forall (f : file_object) (w : fs) (content : string) (perm : Z),
    fo_mode f <> ModeR ->
    lookup (fo_path f) w = Some (File content perm) ->
    exists w',
      writerows host (mkDictWriter f names) rows w = (w', inr tt) /\
      target_set (fo_path f) (content ++ rows_text names rows) perm w w'.
Proof.
  induction rows as [|r rows IH]; intros f w content perm Hm Hl.
  - exists w. split; [reflexivity|]. cbn [rows_text].
    rewrite append_empty_r. now apply target_set_same.
  - pose proof (file_is_not_root _ _ _ _ Hl) as Hp.
    unfold writerows. cbn [for_each]. unfold bind, writerow, call.
    cbn [dw_file dw_fieldnames file_write host].
    rewrite (mem_write_adds f _ w content perm Hm Hl).
    destruct (IH f _ _ perm Hm
                (lookup_store (fo_path f)
                   (File (content ++ Csv.record (Csv.dict_to_list names r))
                      perm) w Hp))
      as (w' & Hrun & Hset).
    exists w'. split; [exact Hrun|].
    cbn [rows_text]. rewrite <- append_assoc.
    exact (target_set_then _ _ _ _ _ _ _ _
             (target_set_store _ _ _ w Hp) Hset).
Qed.

Lemma mem_open_for_writing (p : Path) (encoding : string) (w : fs) :
  writable_target p w ->
  exists perm0,
    mem_open p ModeW encoding w =
      (store p (File "" perm0) w, inr (mkFile p ModeW encoding)).
Proof.
  intros [(Hn & Hd)|(old & perm & Hl & Hw)]; unfold mem_open.
  - exists new_file_perm. now rewrite Hn, Hd.
  - exists perm. now rewrite Hl, Hw.
Qed.

(** Writing a table: the target ends up with the table and nothing else. *)
Lemma mem_write_table (p : Path) (names : list string)
    (rows : list (Dict.dict string)) (encoding : string) (perms : Z)
    (w : fs) :
  path_str p <> "/" ->
  writable_target p w ->
  exists w',
    write_table host p names rows encoding perms w = (w', inr tt) /\
    target_set p (table_text names rows) perms w w'.
Proof.
  intros Hp Hw.
  destruct (mem_open_for_writing p encoding w Hw) as (perm0 & Hopen).
  set (f := mkFile p ModeW encoding) in *.
  set (w1 := store p (File "" perm0) w) in *.
  set (w2 := store p (File ("" ++ Csv.record names) perm0) w1).
  assert (Hf : fo_mode f <> ModeR) by discriminate.
  destruct (mem_writerows names rows f w2 _ perm0 Hf
              (lookup_store p (File ("" ++ Csv.record names) perm0) w1 Hp))
    as (w3 & Hrows & Hset3).
  destruct Hset3 as (Hc3 & Hl3 & Ho3).
  change (fo_path f) with p in Hl3, Ho3.
  exists (store p (File (("" ++ Csv.record names) ++ rows_text names rows)
                     perms) w3).
  split.
  - unfold write_table, with_open, bind. unfold call at 1.
    cbn [open_file host]. rewrite Hopen.
    unfold writeheader, writerow at 1, call at 1.
    cbn [dw_file dw_fieldnames file_write host].
    rewrite dict_to_list_header.
    rewrite (mem_write_adds f _ w1 "" perm0 Hf
               (lookup_store p (File "" perm0) w Hp)).
    change (fo_path f) with p. fold w2. rewrite Hrows.
    cbn [file_close host mem_close].
    change (negb (os_name host =? "nt")) with true. cbv beta iota.
    unfold call. cbn [chmod host]. unfold mem_chmod. now rewrite Hl3.
  - apply (target_set_then p "" _ perm0 perms w w1);
      [apply target_set_store; exact Hp|].
    apply (target_set_then p ("" ++ Csv.record names) _ perm0 perms w1 w2);
      [apply target_set_store; exact Hp|].
    apply (target_set_then p
             (("" ++ Csv.record names) ++ rows_text names rows) _
             perm0 perms w2 w3);
      [split; [exact Hc3|split; [exact Hl3|exact Ho3]]|].
    apply target_set_store. exact Hp.
Qed.

End InMemory.

Section InMemoryPipelines.

Import MemFS.

Lemma accepted_path_is_csv (filepath : string) (w w' : fs) (p : Path) :
  validate_filepath host filepath w = (w', inr p) ->
  Text.lower (PurePath.suffix p) = ".csv".
Proof.
  unfold validate_filepath, bind, look, raise, ret.
  destruct (Text.contains ".." filepath); [discriminate|].
  destruct (String.eqb_spec
              (Text.lower (PurePath.suffix (resolve host filepath w)))
              ".csv") as [Hs|Hs]; cbn [negb]; [|discriminate].
  intros E. now injection E as _ <-.
Qed.

(** The validator looks at the world only through the working directory. *)
Lemma validate_filepath_same_cwd (filepath : string) (w w' : fs) (p : Path) :
  cwd w' = cwd w ->
  validate_filepath host filepath w = (w, inr p) ->
  validate_filepath host filepath w' = (w', inr p).
Proof.
  intros Hc. unfold validate_filepath, bind, look, raise, ret.
  cbn [resolve host]. unfold mem_resolve. rewrite Hc.
  destruct (Text.contains ".." filepath); [discriminate|].
  destruct (negb _); [discriminate|].
  intros E. now injection E as <-.
Qed.

Lemma mem_write_csv_secure (filepath : string) (first : row)
    (rest : list row) (fieldnames : option (list string)) (encoding : string)
    (perms : Z) (safe_path : Path) (w w1 : fs) :
  validate_filepath host filepath w = (w, inr safe_path) ->
  mem_mkdir_parents (PurePath.parent safe_path) w = (w1, inr tt) ->
  writable_target safe_path w1 ->
  exists w',
    write_csv_secure host filepath (first :: rest) fieldnames encoding perms
      w = (w', inr tt) /\
    target_set safe_path
      (table_text (safe_fieldnames (fieldnames_or_inferred fieldnames first))
         (sanitized_data (first :: rest)))
      perms w1 w'.
Proof.
  intros Ev Em Hw.
  pose proof (csv_path_is_not_root _ (accepted_path_is_csv _ _ _ _ Ev)) as Hp.
  destruct (mem_write_table safe_path
              (safe_fieldnames (fieldnames_or_inferred fieldnames first))
              (sanitized_data (first :: rest)) encoding perms w1 Hp Hw)
    as (w' & Hrun & Hset).
  exists w'. split; [|exact Hset].
  unfold write_csv_secure. unfold bind at 1. rewrite Ev.
  unfold bind at 1, call at 1. cbn [mkdir_parents host]. rewrite Em.
  unfold try_except_OSError. now rewrite Hrun.
Qed.

Lemma mem_read_fieldnames (p : Path) (encoding : string) (w : fs)
    (old : string) (perm : Z) :
  lookup p w = Some (File old perm) ->
  owner_can_read perm = true ->
  read_fieldnames host p encoding w = (w, inr (CsvReader.first_record old)).
Proof.
  intros Hl Hr. unfold read_fieldnames, with_open, bind, call.
  cbn [open_file host]. unfold mem_open. rewrite Hl, Hr.
  cbn [reader_next host]. unfold mem_reader_next. cbn [fo_path fo_mode].
  now rewrite Hl.
Qed.


Lemma mem_append_no_header (filepath : string) (first : row)
    (rest : list row) (encoding : string) (safe_path : Path) (w : fs)
    (old : string) (perm : Z) :
  validate_filepath host filepath w = (w, inr safe_path) ->
  lookup safe_path w = Some (File old perm) ->
  owner_can_read perm = true ->
  CsvReader.first_record old = None \/ CsvReader.first_record old = Some [] ->
  append_csv_secure host filepath (first :: rest) encoding w =
    (w, inl no_header).
Proof.
  intros Ev Hl Hr Hh.
  unfold append_csv_secure. unfold bind at 1. rewrite Ev.
  unfold bind at 1, look. cbn [path_exists host]. unfold mem_exists.
  rewrite Hl. cbn [negb]. unfold bind.
  rewrite (mem_read_fieldnames _ _ _ _ _ Hl Hr).
  now destruct Hh as [-> | ->].
Qed.


Lemma mem_mkdir_parents_cwd (p : Path) (w w1 : fs) (r : os_error + unit) :
  mem_mkdir_parents p w = (w1, r) -> cwd w1 = cwd w.
Proof.
  unfold mem_mkdir_parents.
  destruct (is_file w p); [intros E; now injection E as <-|].
  destruct (existsb _ _); [intros E; now injection E as <-|].
  intros E. injection E as <- _.
  generalize (chain "" (components (path_str p))) as ps. intros ps.
  revert w. induction ps as [|d ps IH]; intros w; cbn [fold_left].
  - reflexivity.
  - rewrite IH. now destruct (is_dir w d).
Qed.

End InMemoryPipelines.

Section Composition.

Import MemFS.




(** X18: on the host in memory, a file [write_csv_secure] has written with
    no column at all cannot be appended to: [append_csv_secure] finds an
    empty header record, raises the no-header error and leaves the world
    as it was. *)
Theorem file_without_columns_cannot_be_appended (filepath : string)
    (first : row) (rest : list row) (more_first : row) (more_rest : list row)
    (fieldnames : option (list string)) (encoding : string) (perms : Z)
    (safe_path : Path) (w w1 : fs) :
  validate_filepath host filepath w = (w, inr safe_path) ->
  mem_mkdir_parents (PurePath.parent safe_path) w = (w1, inr tt) ->
  writable_target safe_path w1 ->
  safe_fieldnames (fieldnames_or_inferred fieldnames first) = [] ->
  owner_can_read perms = true ->
  exists w2,
    write_csv_secure host filepath (first :: rest) fieldnames encoding perms
      w = (w2, inr tt) /\
    append_csv_secure host filepath (more_first :: more_rest) encoding w2 =
      (w2, inl no_header).
Proof.
  intros Ev Em Hw Hn Hr.
  destruct (mem_write_csv_secure filepath first rest fieldnames encoding
              perms safe_path w w1 Ev Em Hw) as (w2 & Hrun2 & Hset2).
  rewrite Hn in Hset2. destruct Hset2 as (Hc2 & Hl2 & _).
  exists w2. split; [exact Hrun2|].
  apply (mem_append_no_header filepath more_first more_rest encoding
           safe_path w2 (table_text [] (sanitized_data (first :: rest)))
           perms); [|exact Hl2|exact Hr|].
  - apply (validate_filepath_same_cwd filepath w w2); [|exact Ev].
    rewrite Hc2. exact (mem_mkdir_parents_cwd _ _ _ _ Em).
  - right. apply first_record_of_record.
Qed.

End Composition.




Lemma file_without_columns_cannot_be_appended_witness :
  exists w2,
    write_csv_secure MemFS.host "out.csv" [[]; [("a", VInt 1)]] None
      default_encoding default_file_permissions MemFS.home = (w2, inr tt) /\
    append_csv_secure MemFS.host "out.csv" [[("a", VInt 2)]] default_encoding
      w2 = (w2, inl no_header).
Proof.
  apply (file_without_columns_cannot_be_appended "out.csv" []
           [[("a", VInt 1)]] [("a", VInt 2)] [] None default_encoding
           default_file_permissions (mkPath "/home/user/out.csv")
           MemFS.home MemFS.home eq_refl eq_refl);
    [|reflexivity|reflexivity].
  left. split; reflexivity.
Defined.

(** ** What the pipelines leave alone, on the host in memory *)

Section Preservation.

Import MemFS.

Variable R : fs -> fs -> Prop.
Hypothesis R_refl : forall w, R w w.
Hypothesis R_trans : forall a b c, R a b -> R b c -> R a c.

Lemma preserves_ret {A} (a : A) : preserves R (ret a).
Proof. intros w w' r E. injection E as <- _. apply R_refl. Qed.

Lemma preserves_raise {A} (x : exn) : preserves R (raise (A := A) x).
Proof. intros w w' r E. injection E as <- _. apply R_refl. Qed.

Lemma preserves_look {A} (f : fs -> A) : preserves R (look f).
Proof. intros w w' r E. injection E as <- _. apply R_refl. Qed.

Lemma preserves_call {A} (f : fs -> fs * (os_error + A)) :
  (forall w w' r, f w = (w', r) -> R w w') -> preserves R (call f).
Proof.
  intros H w w' r. unfold call. destruct (f w) as [w1 [e|a]] eqn:E;
    intros E'; injection E' as <- _; exact (H _ _ _ E).
Qed.

Lemma preserves_bind {A B} (m : M fs A) (k : A -> M fs B) :
  preserves R m -> (forall a, preserves R (k a)) -> preserves R (bind m k).
Proof.
  intros Hm Hk w w' r. unfold bind.
  destruct (m w) as [w1 [x|a]] eqn:E; intros E'.
  - injection E' as <- _. exact (Hm _ _ _ E).
  - exact (R_trans _ _ _ (Hm _ _ _ E) (Hk a _ _ _ E')).
Qed.

Lemma preserves_for_each {A} (f : A -> M fs unit) (xs : list A) :
  (forall a, preserves R (f a)) -> preserves R (for_each f xs).
Proof.
  intros Hf. induction xs as [|a xs IH]; cbn [for_each].
  - apply preserves_ret.
  - apply preserves_bind; [apply Hf|intros _; exact IH].
Qed.

Lemma preserves_try {A} (m : M fs A) (handler : exn -> M fs A) :
  preserves R m -> (forall x, preserves R (handler x)) ->
  preserves R (try_except_OSError m handler).
Proof.
  intros Hm Hh w w' r. unfold try_except_OSError.
  destruct (m w) as [w1 [x|a]] eqn:E.
  - destruct (is_OSError x); intros E'.
    + exact (R_trans _ _ _ (Hm _ _ _ E) (Hh x _ _ _ E')).
    + injection E' as <- _. exact (Hm _ _ _ E).
  - intros E'. injection E' as <- _. exact (Hm _ _ _ E).
Qed.

Lemma mem_open_file_object (p : Path) (mode : open_mode) (encoding : string)
    (w w' : fs) (f : file_object) :
  mem_open p mode encoding w = (w', inr f) -> f = mkFile p mode encoding.
Proof.
  unfold mem_open.
  destruct (lookup p w) as [[|content perm]|].
  - discriminate.
  - destruct mode;
      [destruct (owner_can_read perm)|destruct (owner_can_write perm)
      |destruct (owner_can_write perm)];
      intros E; try discriminate; now injection E as _ <-.
  - destruct (lookup (PurePath.parent p) w) as [[|c' p']|], mode;
      intros E; try discriminate; now injection E as _ <-.
Qed.

Lemma preserves_with_open {A} (path : Path) (mode : open_mode)
    (encoding : string) (body : file_object -> M fs A) :
  (forall w w' r, mem_open path mode encoding w = (w', r) -> R w w') ->
  preserves R (body (mkFile path mode encoding)) ->
  preserves R (with_open host path mode encoding body).
Proof.
  intros Ho Hb w w' r. unfold with_open, bind, call. cbn [open_file host].
  destruct (mem_open path mode encoding w) as [w1 [e|f]] eqn:E.
  - intros E'. injection E' as <- _. exact (Ho _ _ _ E).
  - rewrite (mem_open_file_object _ _ _ _ _ _ E).
    destruct (body _ w1) as [w2 r2] eqn:Eb. cbn [file_close host mem_close].
    intros E'. injection E' as <- _.
    exact (R_trans _ _ _ (Ho _ _ _ E) (Hb _ _ _ Eb)).
Qed.

End Preservation.

Section LeftAlone.

Import MemFS.

Lemma same_path (p q : Path) : path_str q = path_str p -> q = p.
Proof. destruct p, q. cbn. now intros ->. Qed.

Lemma keeps_files_refl (w : fs) : keeps_files w w.
Proof.
  intros q content perm H. exists "". now rewrite append_empty_r.
Qed.

Lemma keeps_files_trans (a b c : fs) :
  keeps_files a b -> keeps_files b c -> keeps_files a c.
Proof.
  intros Hab Hbc q content perm H.
  destruct (Hab _ _ _ H) as (e1 & H1). destruct (Hbc _ _ _ H1) as (e2 & H2).
  exists (e1 ++ e2). now rewrite <- append_assoc.
Qed.

Lemma keeps_files_store_fresh (p : Path) (n : node) (w : fs) :
  lookup p w = None -> keeps_files w (store p n w).
Proof.
  intros Hn q content perm H. exists "". rewrite append_empty_r.
  destruct (String.eqb_spec (path_str q) (path_str p)) as [E|E].
  - apply same_path in E. subst q. congruence.
  - now rewrite lookup_store_other.
Qed.

Lemma keeps_files_store_added (p : Path) (content text : string) (perm : Z)
    (w : fs) :
  lookup p w = Some (File content perm) ->
  keeps_files w (store p (File (content ++ text) perm) w).
Proof.
  intros Hl q c' perm' H.
  destruct (String.eqb_spec (path_str q) (path_str p)) as [E|E].
  - apply same_path in E. subst q. rewrite Hl in H. injection H as <- <-.
    exists text. apply lookup_store. exact (file_is_not_root _ _ _ _ Hl).
  - exists "". rewrite append_empty_r. now rewrite lookup_store_other.
Qed.

Lemma mem_open_keeps_files (p : Path) (mode : open_mode) (encoding : string)
    (w w' : fs) (r : os_error + file_object) :
  mode <> ModeW ->
  mem_open p mode encoding w = (w', r) -> keeps_files w w'.
Proof.
  intros Hm. unfold mem_open.
  destruct (lookup p w) as [[|content perm]|] eqn:Hl.
  - intros E. injection E as <- _. apply keeps_files_refl.
  - destruct mode;
      [destruct (owner_can_read perm)|contradiction
      |destruct (owner_can_write perm)];
      intros E; injection E as <- _; apply keeps_files_refl.
  - destruct (lookup (PurePath.parent p) w) as [[|c' p']|], mode;
      try contradiction; intros E; injection E as <- _;
      try apply keeps_files_refl.
    now apply keeps_files_store_fresh.
Qed.

Lemma mem_write_keeps_files (f : file_object) (text : string) (w w' : fs)
    (r : os_error + unit) :
  mem_write f text w = (w', r) -> keeps_files w w'.
Proof.
  unfold mem_write.
  destruct (lookup (fo_path f) w) as [[|content perm]|] eqn:Hl;
    [| |]; destruct (fo_mode f); intros E; injection E as <- _;
    try apply keeps_files_refl; now apply keeps_files_store_added.
Qed.

Lemma mem_reader_next_world (f : file_object) (w w' : fs)
    (r : os_error + option (list string)) :
  mem_reader_next f w = (w', r) -> w' = w.
Proof.
  unfold mem_reader_next.
  destruct (lookup (fo_path f) w) as [[|content perm]|];
    [| |]; destruct (fo_mode f); intros E; now injection E as <- _.
Qed.

Lemma append_csv_secure_preserves (filepath : string) (data : list row)
    (encoding : string) :
  preserves keeps_files (append_csv_secure host filepath data encoding).
Proof.
  unfold append_csv_secure. destruct data as [|first rest].
  - apply (preserves_raise _ keeps_files_refl).
  - apply (preserves_bind _ keeps_files_trans).
    + intros w w' r E. apply validate_filepath_world in E. subst w'.
      apply keeps_files_refl.
    + intros p. apply (preserves_bind _ keeps_files_trans);
        [apply (preserves_look _ keeps_files_refl)|].
      intros present. destruct (negb present);
        [apply (preserves_raise _ keeps_files_refl)|].
      apply (preserves_bind _ keeps_files_trans).
      * apply (preserves_with_open _ keeps_files_trans).
        -- intros w w' r. apply mem_open_keeps_files. discriminate.
        -- apply preserves_call.
           intros w w' r E. cbn [reader_next host] in E.
           apply mem_reader_next_world in E. subst w'.
           apply keeps_files_refl.
      * intros [[|column columns]|];
          try apply (preserves_raise _ keeps_files_refl).
        apply (preserves_with_open _ keeps_files_trans).
        -- intros w w' r. apply mem_open_keeps_files. discriminate.
        -- apply (preserves_for_each _ keeps_files_refl keeps_files_trans).
           intros r. apply preserves_call.
           intros w w' r'. cbn [file_write host]. apply mem_write_keeps_files.
Qed.

(** X19: on the host in memory [append_csv_secure] only ever adds to
    files: whatever the arguments and whether it returns or raises, every
    regular file is still there afterwards with the same permissions, and
    its old text is the beginning of its new text.  No header is rewritten
    and nothing is truncated. *)
Theorem append_csv_secure_only_adds (filepath : string) (data : list row)
    (encoding : string) (w w' : fs) (r : exn + unit) :
  append_csv_secure host filepath data encoding w = (w', r) ->
  keeps_files w w'.
Proof. apply append_csv_secure_preserves. Qed.

End LeftAlone.

Lemma append_csv_secure_only_adds_witness :
  (exists added,
     MemFS.lookup (mkPath "/home/user/out.csv")
       (fst (append_csv_secure MemFS.host "out.csv" [[("old text", VInt 1)]]
               default_encoding with_old_report)) =
     Some (MemFS.File ("old text, longer than the new" ++ added) 420)) /\
  (exists added,
     MemFS.lookup (mkPath "/home/user/notes.txt")
       (fst (append_csv_secure MemFS.host "out.csv" [[("old text", VInt 1)]]
               default_encoding with_old_report)) =
     Some (MemFS.File ("keep me" ++ added) 384)).
Proof.
  pose proof (append_csv_secure_only_adds "out.csv" [[("old text", VInt 1)]]
                default_encoding with_old_report _ _
                (surjective_pairing _)) as H.
  split.
  - exact (H (mkPath "/home/user/out.csv") _ _ eq_refl).
  - exact (H (mkPath "/home/user/notes.txt") _ _ eq_refl).
Defined.

Section OtherFiles.

Import MemFS.

Variable target : Path.

Lemma keeps_other_files_refl (w : fs) : keeps_other_files target w w.
Proof. intros q content perm _ H. exact H. Qed.

Lemma keeps_other_files_trans (a b c : fs) :
  keeps_other_files target a b -> keeps_other_files target b c ->
  keeps_other_files target a c.
Proof. intros Hab Hbc q content perm Hq H. eauto. Qed.

Lemma keeps_other_files_store (n : node) (w : fs) :
  keeps_other_files target w (store target n w).
Proof. intros q content perm Hq H. now rewrite lookup_store_other. Qed.

Lemma fold_mkdir_keeps_files (w : fs) (ps : list Path) :
  (forall d, In d ps -> is_file w d = false) ->
  forall w0,
    (forall q content perm,
       lookup q w = Some (File content perm) ->
       lookup q w0 = Some (File content perm)) ->
    forall q content perm,
      lookup q w = Some (File content perm) ->
      lookup q
        (fold_left (fun w' d => if is_dir w' d then w' else store d Dir w')
           ps w0) = Some (File content perm).
Proof.
  induction ps as [|d ps IH]; intros Hnf w0 H0 q content perm Hq;
    cbn [fold_left]; [now apply H0|].
  apply IH; [intros d' Hd'; apply Hnf; now right| |exact Hq].
  intros q' c' perm' Hq'. destruct (is_dir w0 d); [now apply H0|].
  rewrite lookup_store_other; [now apply H0|].
  intros E. apply same_path in E. subst q'.
  assert (Hf : is_file w d = false) by (apply Hnf; now left).
  unfold is_file in Hf. now rewrite Hq' in Hf.
Qed.

Lemma mem_mkdir_parents_keeps_files (d : Path) (w w' : fs)
    (r : os_error + unit) :
  mem_mkdir_parents d w = (w', r) ->
  forall q content perm,
    lookup q w = Some (File content perm) ->
    lookup q w' = Some (File content perm).
Proof.
  unfold mem_mkdir_parents.
  destruct (is_file w d); [intros E; now injection E as <- _|].
  destruct (existsb (is_file w) (chain "" (components (path_str d))))
    eqn:Hex; [intros E; now injection E as <- _|].
  intros E. injection E as <- _.
  apply fold_mkdir_keeps_files; [|auto].
  intros d' Hd'. destruct (is_file w d') eqn:Hf; [|reflexivity].
  assert (Ht : existsb (is_file w) (chain "" (components (path_str d)))
               = true) by (apply existsb_exists; now exists d').
  congruence.
Qed.

Lemma mem_open_keeps_other_files (mode : open_mode) (encoding : string)
    (w w' : fs) (r : os_error + file_object) :
  mem_open target mode encoding w = (w', r) -> keeps_other_files target w w'.
Proof.
  unfold mem_open.
  destruct (lookup target w) as [[|content perm]|].
  - intros E. injection E as <- _. apply keeps_other_files_refl.
  - destruct mode;
      [destruct (owner_can_read perm)|destruct (owner_can_write perm)
      |destruct (owner_can_write perm)];
      intros E; injection E as <- _;
      first [apply keeps_other_files_refl|apply keeps_other_files_store].
  - destruct (lookup (PurePath.parent target) w) as [[|c' p']|], mode;
      intros E; injection E as <- _;
      first [apply keeps_other_files_refl|apply keeps_other_files_store].
Qed.

Lemma mem_write_keeps_other_files (f : file_object) (text : string)
    (w w' : fs) (r : os_error + unit) :
  fo_path f = target ->
  mem_write f text w = (w', r) -> keeps_other_files target w w'.
Proof.
  intros Hf. unfold mem_write. rewrite Hf.
  destruct (lookup target w) as [[|content perm]|];
    [| |]; destruct (fo_mode f); intros E; injection E as <- _;
    first [apply keeps_other_files_refl|apply keeps_other_files_store].
Qed.

Lemma mem_chmod_keeps_other_files (perms : Z) (w w' : fs)
    (r : os_error + unit) :
  mem_chmod target perms w = (w', r) -> keeps_other_files target w w'.
Proof.
  unfold mem_chmod. destruct (lookup target w) as [[|content perm]|];
    intros E; injection E as <- _;
    first [apply keeps_other_files_refl|apply keeps_other_files_store].
Qed.

Lemma write_table_keeps_other_files (names : list string)
    (rows : list (Dict.dict string)) (encoding : string) (perms : Z) :
  preserves (keeps_other_files target)
    (write_table host target names rows encoding perms).
Proof.
  unfold write_table.
  apply (preserves_bind _ keeps_other_files_trans).
  - apply (preserves_with_open _ keeps_other_files_trans).
    + intros w w' r. apply mem_open_keeps_other_files.
    + apply (preserves_bind _ keeps_other_files_trans).
      * apply preserves_call. intros w w' r. cbn [file_write host dw_file].
        now apply mem_write_keeps_other_files.
      * intros _.
        apply (preserves_for_each _ keeps_other_files_refl
                 keeps_other_files_trans).
        intros r. apply preserves_call. intros w w' r'.
        cbn [file_write host dw_file]. now apply mem_write_keeps_other_files.
  - intros _. destruct (negb _).
    + apply preserves_call. intros w w' r. cbn [chmod host].
      apply mem_chmod_keeps_other_files.
    + apply (preserves_ret _ keeps_other_files_refl).
Qed.

End OtherFiles.

Section Confinement.

Import MemFS.

Lemma accepted_path_is_resolved (filepath : string) (w w' : fs) (p : Path) :
  validate_filepath host filepath w = (w', inr p) ->
  p = mem_resolve filepath w.
Proof.
  unfold validate_filepath, bind, look, raise, ret.
  destruct (Text.contains ".." filepath); [discriminate|].
  destruct (negb _); [discriminate|].
  intros E. now injection E as _ <-.
Qed.

Lemma write_csv_secure_preserves (filepath : string) (data : list row)
    (fieldnames : option (list string)) (encoding : string) (perms : Z)
    (w w' : fs) (r : exn + unit) :
  write_csv_secure host filepath data fieldnames encoding perms w = (w', r) ->
  keeps_other_files (mem_resolve filepath w) w w'.
Proof.
  unfold write_csv_secure. destruct data as [|first rest].
  - intros E. injection E as <- _. apply keeps_other_files_refl.
  - unfold bind at 1.
    destruct (validate_filepath host filepath w) as [w0 [x|p]] eqn:Ev.
    + intros E. injection E as <- _.
      apply validate_filepath_world in Ev. subst w0.
      apply keeps_other_files_refl.
    + pose proof (accepted_path_is_resolved _ _ _ _ Ev) as Hp.
      apply validate_filepath_world in Ev. subst w0. rewrite <- Hp.
      revert w w' r Hp.
      change (forall w w' r,
                p = mem_resolve filepath w ->
                (x <- call (mkdir_parents host (PurePath.parent p)) ;;
                 try_except_OSError
                   (write_table host p
                      (safe_fieldnames
                         (fieldnames_or_inferred fieldnames first))
                      (sanitized_data (first :: rest)) encoding perms)
                   (fun e => raise (io_failure e)))%monad w = (w', r) ->
                keeps_other_files p w w').
      intros w w' r _.
      apply (preserves_bind _ (keeps_other_files_trans p)).
      * apply preserves_call. intros w1 w2 r1 E q content perm _.
        cbn [mkdir_parents host] in E.
        exact (mem_mkdir_parents_keeps_files _ _ _ _ E q content perm).
      * intros _.
        apply (preserves_try _ (keeps_other_files_trans p)).
        -- apply write_table_keeps_other_files.
        -- intros x. apply (preserves_raise _ (keeps_other_files_refl p)).
Qed.

(** X20: on the host in memory [write_csv_secure] changes no regular file
    but the one at the resolved path: whatever the arguments and whether it
    returns or raises, every other regular file has afterwards the text and
    the permissions it had. *)
Theorem write_csv_secure_touches_only_the_target (filepath : string)
    (data : list row) (fieldnames : option (list string)) (encoding : string)
    (perms : Z) (w w' : fs) (r : exn + unit) :
  write_csv_secure host filepath data fieldnames encoding perms w = (w', r) ->
  keeps_other_files (resolve host filepath w) w w'.
Proof. apply write_csv_secure_preserves. Qed.

End Confinement.

Lemma write_csv_secure_touches_only_the_target_witness :
  MemFS.lookup (mkPath "/home/user/notes.txt")
    (fst (write_csv_secure MemFS.host "sub/../out.csv" [[("a", VInt 1)]]
            None default_encoding default_file_permissions with_old_report))
  = Some (MemFS.File "keep me" 384) /\
  MemFS.lookup (mkPath "/home/user/notes.txt")
    (fst (write_csv_secure MemFS.host "out.csv" [[("a", VInt 1)]]
            None default_encoding default_file_permissions with_old_report))
  = Some (MemFS.File "keep me" 384).
Proof.
  split.
  - refine (write_csv_secure_touches_only_the_target "sub/../out.csv"
              [[("a", VInt 1)]] None default_encoding
              default_file_permissions with_old_report _ _
              (surjective_pairing _) (mkPath "/home/user/notes.txt")
              "keep me" 384%Z _ eq_refl).
    discriminate.
  - refine (write_csv_secure_touches_only_the_target "out.csv"
              [[("a", VInt 1)]] None default_encoding
              default_file_permissions with_old_report _ _
              (surjective_pairing _) (mkPath "/home/user/notes.txt")
              "keep me" 384%Z _ eq_refl).
    discriminate.
Defined.
